(** * create_cloth_list: PNG contact sheets on A4 pages

    A verification development for [src/create_cloth_list.py].  The program
    lays PNG images out on a rows x cols grid per A4 page, stamps a running
    number on each image and assembles the pages into a PDF.

    Organisation:
    - [Py]: the fragments of the Python runtime the program relies on
      (exceptions, [int] arithmetic, binary64 [float] arithmetic as specified
      by [SpecFloat], [range], slicing, [min]);
    - [Pil]: the values exchanged with Pillow and fpdf2 (images, fonts, the
      page canvas as the ordered record of the drawing calls) and what the
      program reads from its surroundings;
    - the program, function by function, under the names of the source:
      the page composer, the driver, the search for the files and [main];
    - the vocabulary of the properties and a concrete installation on which
      the program can be run;
    - the properties: binary64 facts, pagination, the page composer, the
      driver, the claims about the program, and further properties of the
      composer, of the driver, of the search for the files and of [main]. *)

From Stdlib Require Import ZArith Lia SpecFloat Sorted.
From stdpp Require Import base option list strings gmap pretty.

Local Open Scope Z_scope.

(** ** Python runtime *)

Module Py.

(** Exceptions the program can meet.  In Python 3 [IOError] is an alias of
    [OSError]. *)
Inductive exn : Type :=
| ZeroDivisionError
| OverflowError
| ValueError (msg : string)
| OSError (msg : string).

Inductive result (A : Type) : Type :=
| Ok (a : A)
| Raise (e : exn).
Global Arguments Ok {A} a.
Global Arguments Raise {A} e.

Global Instance result_ret : MRet result := fun A a => Ok a.
Global Instance result_bind : MBind result := fun A B f m =>
  match m with
  | Ok a => f a
  | Raise e => Raise e
  end.

Definition is_ok {A} (r : result A) : bool :=
  match r with Ok _ => true | Raise _ => false end.

(** [isinstance(e, IOError)] *)
Definition is_IOError (e : exn) : bool :=
  match e with OSError _ => true | _ => false end.

(** *** Integers: [//] and [%] raise on a zero divisor; otherwise they are
    floor division and the remainder with the sign of the divisor, which is
    what [Z.div] and [Z.modulo] compute. *)
Definition floordiv (a b : Z) : result Z :=
  if b =? 0 then Raise ZeroDivisionError else Ok (a / b).

Definition mod_ (a b : Z) : result Z :=
  if b =? 0 then Raise ZeroDivisionError else Ok (a mod b).

(** *** Floats: IEEE 754 binary64, round to nearest even, as specified by
    [SpecFloat] with 53 bits of precision. *)
Definition prec : Z := 53.
Definition emax : Z := 1024.
Definition float : Type := spec_float.

Definition is_inf (x : float) : bool :=
  match x with S754_infinity _ => true | _ => false end.

(** An integer as an unrounded mantissa with exponent 0. *)
Definition exact_int (n : Z) : float :=
  match n with
  | Z0 => S754_zero false
  | Zpos p => S754_finite false p 0
  | Zneg p => S754_finite true p 0
  end.

(** The correctly rounded quotient of two integers. *)
Definition int_truediv (a b : Z) : float :=
  SFdiv prec emax (exact_int a) (exact_int b).

(** [a / b] on two [int]s *)
Definition truediv (a b : Z) : result float :=
  if b =? 0 then Raise ZeroDivisionError
  else let q := int_truediv a b in
       if is_inf q then Raise OverflowError else Ok q.

(** [float(n)], the implicit conversion of an [int] operand *)
Definition float_of_int (n : Z) : result float :=
  let x := binary_normalize prec emax n 0 false in
  if is_inf x then Raise OverflowError else Ok x.

(** [n * x] with [n : int] and [x : float] *)
Definition mul_int_float (n : Z) (x : float) : result float :=
  y ← float_of_int n; Ok (SFmul prec emax y x).

(** [x - n] with [x : float] and [n : int] *)
Definition sub_float_int (x : float) (n : Z) : result float :=
  y ← float_of_int n; Ok (SFsub prec emax x y).

(** [int(x)]: truncation toward zero *)
Definition int_ (x : float) : result Z :=
  match x with
  | S754_zero _ => Ok 0
  | S754_finite s m e => Ok (cond_Zopp s (Z.shiftl (Zpos m) e))
  | S754_infinity _ => Raise OverflowError
  | S754_nan => Raise (ValueError "cannot convert float NaN to integer")
  end.

(** The literal [1.0] *)
Definition one : float := S754_finite false (2 ^ 52) (-52).

(** [min(a, b, c)]: the first of the smallest, found with [<] *)
Definition min3 (a b c : float) : float :=
  let m := if SFltb b a then b else a in
  if SFltb c m then c else m.

(** *** [range(start, stop, step)] as the list of the values it yields.
    Each step moves [i] by at least one toward [stop], so
    [|stop - start|] steps are always enough. *)
Fixpoint range_up (fuel : nat) (i stop step : Z) : list Z :=
  match fuel with
  | O => []
  | S fuel => if i <? stop then i :: range_up fuel (i + step) stop step else []
  end.

Fixpoint range_down (fuel : nat) (i stop step : Z) : list Z :=
  match fuel with
  | O => []
  | S fuel => if stop <? i then i :: range_down fuel (i + step) stop step else []
  end.

Definition range (start stop step : Z) : result (list Z) :=
  if step =? 0 then Raise (ValueError "range() arg 3 must not be zero")
  else if 0 <? step then Ok (range_up (Z.to_nat (stop - start)) start stop step)
  else Ok (range_down (Z.to_nat (start - stop)) start stop step).

Definition len {A} (l : list A) : Z := Z.of_nat (length l).

(** [l[lo:hi]]: out-of-range bounds are clamped, negative ones count from
    the end. *)
Definition clamp_index (n i : Z) : Z :=
  if i <? 0 then Z.max (i + n) 0 else Z.min i n.

Definition slice {A} (l : list A) (lo hi : Z) : list A :=
  let lo' := clamp_index (len l) lo in
  let hi' := clamp_index (len l) hi in
  take (Z.to_nat (hi' - lo')) (drop (Z.to_nat lo') l).

(** [str.endswith], for the [*.png] pattern of [glob] *)
Fixpoint ends_with (suffix s : string) : bool :=
  if String.eqb s suffix then true
  else match s with
       | EmptyString => false
       | String _ s' => ends_with suffix s'
       end.

End Py.
Import Py.

(** ** Pillow and fpdf2 values *)

Module Pil.

Definition Path : Type := string.
Definition Color : Type := (Z * Z * Z)%type.
Definition Box : Type := (Z * Z * Z * Z)%type.

(** A decoded raster image: [img.size] and its samples. *)
Record Image : Type := { size : Z * Z; pixels : list Z }.

(** A face loaded by [ImageFont.truetype(name, size)]. *)
Record Font : Type := { face : string; size_px : Z }.

(** The calls that draw on a page, with their arguments. *)
Inductive DrawOp : Type :=
| Paste (img : Image) (at_ : Z * Z)
| Rectangle (box : Box) (fill : Color)
| Text (at_ : Z * Z) (text : string) (fill : Color) (font : Font).

(** A page image is the blank white canvas of [Image.new] together with the
    drawing calls applied to it, oldest first.  Pillow rasterises each call
    as a function of the canvas and of these arguments, so two canvases
    with the same size and the same calls hold the same pixels. *)
Record Canvas : Type := { canvas_size : Z * Z; drawn : list DrawOp }.

Definition new_white (sz : Z * Z) : Canvas :=
  {| canvas_size := sz; drawn := [] |}.

Definition draw (c : Canvas) (op : DrawOp) : Canvas :=
  {| canvas_size := canvas_size c; drawn := drawn c ++ [op] |}.

(** What the program reads from its surroundings, and the failures the
    surroundings can inject. *)
Record Env : Type := {
  (** [ImageFont.truetype(name, size)] *)
  truetype : string -> Z -> result Font;
  (** [Image.open(path)]: the decoded image *)
  image_open : Path -> result Image;
  (** [img.resize(size, Image.LANCZOS)] *)
  image_resize : Image -> Z * Z -> result Image;
  (** [draw.textbbox(xy, text, font=font)] *)
  textbbox : Font -> Z * Z -> string -> Box;
  (** creating the temporary directory when it does not exist yet *)
  mkdir_error : option exn;
  (** writing a page image under the given file name *)
  save_error : string -> option exn;
  (** [pdf.output(path)] *)
  output_error : option exn
}.

End Pil.
Import Pil.

(** ** The program *)

(** *** Module constants (source lines 10-15) *)

(** [595.28] and [841.89]: a decimal literal denotes the binary64 value
    nearest to it, which is the correctly rounded quotient of its digits by
    the power of ten. *)
Definition A4_WIDTH_PT : float := int_truediv 59528 100.
Definition A4_HEIGHT_PT : float := int_truediv 84189 100.
Definition MARGIN_PT : Z := 30.
Definition DPI : Z := 300.
Definition PT_PER_INCH : Z := 72.
Definition SCALE_FACTOR : float := int_truediv DPI PT_PER_INCH.

Definition black : Color := (0, 0, 0).
Definition white : Color := (255, 255, 255).

(** *** [combine_images_to_page] (source lines 39-150) *)

(** Lines 61-65: the page in pixels, [(page_width_px, page_height_px)]. *)
Definition page_size_px : result (Z * Z) :=
  page_width_pt ← sub_float_int A4_WIDTH_PT (2 * MARGIN_PT) ≫= int_;
  page_height_pt ← sub_float_int A4_HEIGHT_PT (2 * MARGIN_PT) ≫= int_;
  page_width_px ← mul_int_float page_width_pt SCALE_FACTOR ≫= int_;
  page_height_px ← mul_int_float page_height_pt SCALE_FACTOR ≫= int_;
  Ok (page_width_px, page_height_px).

(** Lines 68-69: [(img_max_width, img_max_height)]. *)
Definition img_max_size (page_px : Z * Z) (rows cols : Z) : result (Z * Z) :=
  img_max_width ← floordiv page_px.1 cols;
  img_max_height ← floordiv page_px.2 rows;
  Ok (img_max_width, img_max_height).

(** Lines 77-83. *)
Definition font_candidates : list string :=
  ["Helvetica.ttf"; "Arial.ttf"; "arial.ttf"; "TImes New Roman.ttf";
   "DejaVuSans.ttf"].

(** Lines 85-91: the [for]/[try]/[break]/[continue] over the candidates;
    [None] when the loop ends without a [break].  Only [IOError] is caught. *)
Fixpoint first_font (env : Env) (candidates : list string) (font_size_px : Z)
  : result (option Font) :=
  match candidates with
  | [] => Ok None
  | font_name :: rest =>
      match truetype env font_name font_size_px with
      | Ok font => Ok (Some font)
      | Raise e =>
          if is_IOError e then first_font env rest font_size_px else Raise e
      end
  end.

(** Lines 76-94. *)
Definition load_font (env : Env) (font_size : Z) : result Font :=
  font_size_px ← mul_int_float font_size SCALE_FACTOR ≫= int_;
  font ← first_font env font_candidates font_size_px;
  match font with
  | None => Raise (ValueError "No font found.")
  | Some font => Ok font
  end.

(** Lines 101-106: [(new_width, new_height)]. *)
Definition fit (img_max_width img_max_height img_width img_height : Z)
  : result (Z * Z) :=
  scale_w ← truediv img_max_width img_width;
  scale_h ← truediv img_max_height img_height;
  let scale := min3 scale_w scale_h one in
  new_width ← mul_int_float img_width scale ≫= int_;
  new_height ← mul_int_float img_height scale ≫= int_;
  Ok (new_width, new_height).

(** Lines 112-114: [(row, col)]. *)
Definition grid_cell (rows cols i : Z) : result (Z * Z) :=
  idx_in_page ← mod_ i (rows * cols);
  row ← floordiv idx_in_page cols;
  col ← mod_ idx_in_page cols;
  Ok (row, col).

(** Line 128: the f-string ["({number})"]. *)
Definition label (number : Z) : string := "(" +:+ pretty number +:+ ")".

(** Lines 97-148: one iteration of the loop over [enumerate(image_paths)]. *)
Definition place_image (env : Env) (rows cols start_index padding : Z)
    (font : Font) (img_max : Z * Z) (page_image : Canvas)
    (i : Z) (path : Path) : result Canvas :=
  let '(img_max_width, img_max_height) := img_max in
  img ← image_open env path;
  let '(img_width, img_height) := size img in
  '(new_width, new_height) ← fit img_max_width img_max_height img_width img_height;
  img ← (if bool_decide (new_width ≠ img_width) || bool_decide (new_height ≠ img_height)
         then image_resize env img (new_width, new_height)
         else Ok img);
  '(row, col) ← grid_cell rows cols i;
  let x_start := col * img_max_width in
  let y_start := row * img_max_height in
  let x_center := x_start + (img_max_width - new_width) / 2 in
  let y_center := y_start + (img_max_height - new_height) / 2 in
  let page_image := draw page_image (Paste img (x_center, y_center)) in
  let number := start_index + i + 1 in
  let text := label number in
  padding_scale ← mul_int_float padding SCALE_FACTOR ≫= int_;
  let text_x := x_center + padding_scale in
  let text_y := y_center + padding_scale in
  let '(bb0, bb1, bb2, bb3) := textbbox env font (text_x, text_y) text in
  bg_padding ← mul_int_float 2 SCALE_FACTOR ≫= int_;
  let bg_rect :=
    (bb0 - bg_padding, bb1 - bg_padding, bb2 + bg_padding, bb3 + bg_padding) in
  let page_image := draw page_image (Rectangle bg_rect black) in
  let page_image := draw page_image (Text (text_x, text_y) text white font) in
  Ok page_image.

(** Line 96: [for i, path in enumerate(image_paths)], from index [i] on. *)
Fixpoint place_images (env : Env) (rows cols start_index padding : Z)
    (font : Font) (img_max : Z * Z) (page_image : Canvas)
    (i : Z) (image_paths : list Path) : result Canvas :=
  match image_paths with
  | [] => Ok page_image
  | path :: rest =>
      page_image ← place_image env rows cols start_index padding font img_max
                     page_image i path;
      place_images env rows cols start_index padding font img_max
        page_image (i + 1) rest
  end.

Definition combine_images_to_page (env : Env) (image_paths : list Path)
    (rows cols start_index padding font_size : Z) : result Canvas :=
  page_px ← page_size_px;
  img_max ← img_max_size page_px rows cols;
  let page_image := new_white page_px in
  font ← load_font env font_size;
  place_images env rows cols start_index padding font img_max page_image
    0 image_paths.

(** The defaults of the keyword arguments. *)
Definition default_padding : Z := 5.
Definition default_font_size : Z := 10.

(** *** [create_pdf_from_images] (source lines 153-222) *)

(** The part of the file system the function changes: the directory
    [temp_page_images] next to the output file, absent ([None]) or holding
    named files, and the output file itself. *)
Inductive File : Type :=
| PngFile (content : Canvas)
| OtherFile.

(** One [pdf.add_page()] followed by [pdf.image(path, x, y, w, h)]. *)
Record PdfPage : Type := {
  page_content : Canvas;
  page_xy : Z * Z;
  page_wh : float * float
}.

Record FS : Type := {
  temp_dir : option (gmap string File);
  output_pdf : option (list PdfPage)
}.

(** Statements run against the file system; an exception leaves it as it was
    when the exception was raised. *)
Definition io (A : Type) : Type := FS -> result A * FS.

Global Instance io_ret : MRet io := fun A a fs => (Ok a, fs).
Global Instance io_bind : MBind io := fun A B f m fs =>
  match m fs with
  | (Ok a, fs') => f a fs'
  | (Raise e, fs') => (Raise e, fs')
  end.

Definition lift {A} (r : result A) : io A := fun fs => (r, fs).

(** [for x in xs: acc = body(x, acc)] *)
Fixpoint for_each {A S} (xs : list A) (body : A -> S -> io S) (acc : S) : io S :=
  match xs with
  | [] => mret acc
  | x :: rest => acc' ← body x acc; for_each rest body acc'
  end.

(** [temp_dir.mkdir(exist_ok=True)] *)
Definition mkdir (env : Env) : io unit := fun fs =>
  match temp_dir fs with
  | Some _ => (Ok (), fs)
  | None =>
      match mkdir_error env with
      | Some e => (Raise e, fs)
      | None => (Ok (), {| temp_dir := Some ∅; output_pdf := output_pdf fs |})
      end
  end.

(** [combined_page.save(temp_dir / name)] *)
Definition save (env : Env) (page : Canvas) (name : string) : io unit := fun fs =>
  match temp_dir fs with
  | None => (Raise (OSError "No such file or directory"), fs)
  | Some files =>
      match save_error env name with
      | Some e => (Raise e, fs)
      | None => (Ok (), {| temp_dir := Some (<[name := PngFile page]> files);
                           output_pdf := output_pdf fs |})
      end
  end.

(** [pdf.add_page(); pdf.image(str(temp_dir / name), x, y, w, h)]: the image
    file is read when the call is made. *)
Definition pdf_image (pdf : list PdfPage) (name : string)
    (xy : Z * Z) (wh : float * float) : io (list PdfPage) := fun fs =>
  match temp_dir fs ≫= (.!! name) with
  | Some (PngFile c) =>
      (Ok (pdf ++ [{| page_content := c; page_xy := xy; page_wh := wh |}]), fs)
  | _ => (Raise (OSError "cannot read image"), fs)
  end.

(** [pdf.output(str(output_pdf_path))] *)
Definition pdf_output (env : Env) (pdf : list PdfPage) : io unit := fun fs =>
  match output_error env with
  | Some e => (Raise e, fs)
  | None => (Ok (), {| temp_dir := temp_dir fs; output_pdf := Some pdf |})
  end.

Definition is_png (name : string) : bool := ends_with ".png" name.

(** Lines 219-220: [for file in temp_dir.glob("*.png"): file.unlink()] *)
Definition unlink_pngs : io unit := fun fs =>
  match temp_dir fs with
  | None => (Ok (), fs)
  | Some files =>
      (Ok (), {| temp_dir := Some (filter (fun kv => is_png kv.1 = false) files);
                 output_pdf := output_pdf fs |})
  end.

(** Line 221: [temp_dir.rmdir()], refused on a directory that is not empty. *)
Definition rmdir : io unit := fun fs =>
  match temp_dir fs with
  | None => (Raise (OSError "No such file or directory"), fs)
  | Some files =>
      if bool_decide (files = ∅)
      then (Ok (), {| temp_dir := None; output_pdf := output_pdf fs |})
      else (Raise (OSError "Directory not empty"), fs)
  end.

(** Line 199: [f"page_{i//images_per_page + 1}.png"] *)
Definition page_file_name (page_number : Z) : string :=
  "page_" +:+ pretty page_number +:+ ".png".

(** Lines 192-212: the body of the loop over the page starts [i]. *)
Definition add_page (env : Env) (image_list : list Path) (rows cols : Z)
    (images_per_page : Z) (content : float * float)
    (i : Z) (pdf : list PdfPage) : io (list PdfPage) :=
  let page_images_paths := slice image_list i (i + images_per_page) in
  combined_page ← lift (combine_images_to_page env page_images_paths rows cols
                          i default_padding default_font_size);
  k ← lift (floordiv i images_per_page);
  let temp_image_name := page_file_name (k + 1) in
  _ ← save env combined_page temp_image_name;
  pdf_image pdf temp_image_name (MARGIN_PT, MARGIN_PT) content.

Definition create_pdf_from_images (env : Env) (image_list : list Path)
    (rows cols : Z) : io unit :=
  let images_per_page := rows * cols in
  let pdf : list PdfPage := [] in
  content_width ← lift (sub_float_int A4_WIDTH_PT (2 * MARGIN_PT));
  content_height ← lift (sub_float_int A4_HEIGHT_PT (2 * MARGIN_PT));
  ((fun fs =>
    match mkdir env fs with
    | (Raise _, fs') => (Ok (), fs')                      (* print; return *)
    | (Ok _, fs') =>
        (starts ← lift (range 0 (len image_list) images_per_page);
         pdf ← for_each starts
                 (add_page env image_list rows cols images_per_page
                    (content_width, content_height)) pdf;
         _ ← pdf_output env pdf;
         _ ← unlink_pngs;
         rmdir) fs'
    end) : io unit).

(** *** [find_png_files] (source lines 18-36) *)

(** [sorted(l, key=key)] on string keys.  The sort of Python is stable and
    compares keys with [<] only; there is exactly one stable sorted
    arrangement of a list, which is the one built here by insertion from the
    right. *)
Fixpoint insert_by {A} (key : A -> string) (x : A) (l : list A) : list A :=
  match l with
  | [] => [x]
  | y :: l' =>
      if String.ltb (key y) (key x) then y :: insert_by key x l'
      else x :: y :: l'
  end.

Definition sorted {A} (key : A -> string) (l : list A) : list A :=
  foldr (insert_by key) [] l.

(** [name.rfind('.')] *)
Fixpoint rfind_dot (name : string) : option nat :=
  match name with
  | EmptyString => None
  | String c rest =>
      match rfind_dot rest with
      | Some i => Some (S i)
      | None => if Ascii.eqb c (Ascii.ascii_of_nat 46) then Some 0%nat else None
      end
  end.

(** [PurePath.stem] on the final component of a path: the name without its
    last suffix; a dot at the very start or at the very end of the name does
    not begin a suffix. *)
Definition stem (name : string) : string :=
  match rfind_dot name with
  | Some i =>
      if (0 <? i)%nat && (i <? String.length name - 1)%nat
      then String.substring 0 i name
      else name
  | None => name
  end.

(** [input_dir / name] *)
Definition joinpath (input_dir : Path) (name : string) : Path :=
  input_dir +:+ "/" +:+ name.

(** The directories as the program finds them: [None] where [is_dir()] is
    false, otherwise the names of the entries in the order in which the
    system lists them. *)
Definition Listing : Type := Path -> option (list string).

(** The key [lambda p: p.stem] only reads the final component of [p], which
    for [input_dir / name] is [name]: the entries are sorted by it and then
    joined to the directory.  [FileNotFoundError] is a subclass of [OSError];
    the string names the class, the message of the source is not kept. *)
Definition find_png_files (ls : Listing) (input_dir : Path) : result (list Path) :=
  match ls input_dir with
  | None => Raise (OSError "FileNotFoundError")
  | Some entries =>
      let png_files := sorted stem (filter (fun name => is_png name = true) entries) in
      Ok (joinpath input_dir <$> png_files)
  end.

(** *** [main] (source lines 225-279), after [parser.parse_args()]: the
    arguments are the parsed [input_dir], [rows] and [cols]; [output_pdf]
    only names the place of the files of [FS]. *)
Definition main (env : Env) (ls : Listing) (input_dir : Path) (rows cols : Z)
  : io unit :=
  if (rows <? 1) || (cols <? 1) then mret ()            (* print; return *)
  else
    png_files ← lift (find_png_files ls input_dir);
    match png_files with
    | [] => mret ()                                      (* print; return *)
    | _ => create_pdf_from_images env png_files rows cols
    end.

(** ** Vocabulary of the properties *)

(** *** Floats *)

(** Some set bit was shifted out. *)
Definition inexact (mrs : shr_record) : bool := shr_r mrs || shr_s mrs.

(** A canonical positive normal number: 53 significant bits. *)
Definition normal (x : float) (m : positive) (e : Z) : Prop :=
  x = S754_finite false m e /\ 2 ^ 52 <= Z.pos m < 2 ^ 53.



(** *** Pages *)

(** The ceiling of [a / b] for a positive [b]. *)
Definition ceil_div (a b : Z) : Z := (a + b - 1) / b.

(** Chunk [k] of the partition of [l] into contiguous chunks of [capacity]
    elements, the last one possibly shorter (spec, section 4.5). *)
Definition chunk {A} (capacity : nat) (l : list A) (k : nat) : list A :=
  take capacity (drop (k * capacity) l).

(** The canvas the driver asks for page [k]. *)
Definition page_canvas (env : Env) (image_list : list Path) (rows cols : Z)
    (k : nat) : result Canvas :=
  combine_images_to_page env (chunk (Z.to_nat (rows * cols)) image_list k)
    rows cols (Z.of_nat k * (rows * cols)) default_padding default_font_size.

(** Lines 178-179 evaluated. *)
Definition content_width : float :=
  SFsub prec emax A4_WIDTH_PT (binary_normalize prec emax (2 * MARGIN_PT) 0 false).
Definition content_height : float :=
  SFsub prec emax A4_HEIGHT_PT (binary_normalize prec emax (2 * MARGIN_PT) 0 false).

(** The PDF page made from a page canvas. *)
Definition page_of (c : Canvas) : PdfPage :=
  {| page_content := c;
     page_xy := (MARGIN_PT, MARGIN_PT);
     page_wh := (content_width, content_height) |}.

(** *** Canvases *)

(** Several drawing calls in a row. *)
Definition draws (c : Canvas) (ops : list DrawOp) : Canvas :=
  {| canvas_size := canvas_size c; drawn := drawn c ++ ops |}.

Definition text_of (op : DrawOp) : option string :=
  match op with Text _ t _ _ => Some t | _ => None end.

Definition font_of (op : DrawOp) : option Font :=
  match op with Text _ _ _ f => Some f | _ => None end.

Definition paste_of (op : DrawOp) : option (Image * (Z * Z)) :=
  match op with Paste img xy => Some (img, xy) | _ => None end.

(** The label texts on a page, in drawing order. *)
Definition labels (c : Canvas) : list string := omap text_of (drawn c).

(** The fonts of the labels. *)
Definition label_fonts (c : Canvas) : list Font := omap font_of (drawn c).

(** The pasted images and their top-left corners, in drawing order. *)
Definition pastes (c : Canvas) : list (Image * (Z * Z)) := omap paste_of (drawn c).

(** The three calls made for one image: the paste, the label background and
    the label. *)
Definition stamp (env : Env) (font : Font) (img_max : Z * Z) (img : Image)
    (new_size cell : Z * Z) (padding_scale bg_padding number : Z) : list DrawOp :=
  let x := cell.2 * img_max.1 + (img_max.1 - new_size.1) / 2 in
  let y := cell.1 * img_max.2 + (img_max.2 - new_size.2) / 2 in
  let text := label number in
  let at_ := (x + padding_scale, y + padding_scale) in
  let '(bb0, bb1, bb2, bb3) := textbbox env font at_ text in
  [Paste img (x, y);
   Rectangle (bb0 - bg_padding, bb1 - bg_padding, bb2 + bg_padding, bb3 + bg_padding) black;
   Text at_ text white font].

(** The values one loop iteration computes for the image at [path] with
    page-local index [i], and the calls [ops] it makes. *)
Inductive placed (env : Env) (rows cols start_index padding : Z) (font : Font)
    (img_max : Z * Z) (i : Z) (path : Path) (ops : list DrawOp) : Prop :=
| Placed (source img : Image) (new_size cell : Z * Z)
    (padding_scale bg_padding : Z) :
    image_open env path = Ok source ->
    fit img_max.1 img_max.2 (size source).1 (size source).2 = Ok new_size ->
    (if bool_decide (new_size.1 ≠ (size source).1)
        || bool_decide (new_size.2 ≠ (size source).2)
     then image_resize env source new_size else Ok source) = Ok img ->
    grid_cell rows cols i = Ok cell ->
    mul_int_float padding SCALE_FACTOR ≫= int_ = Ok padding_scale ->
    mul_int_float 2 SCALE_FACTOR ≫= int_ = Ok bg_padding ->
    ops = stamp env font img_max img new_size cell padding_scale bg_padding
            (start_index + i + 1) ->
    placed env rows cols start_index padding font img_max i path ops.

(** The iterations for the images [paths], the first with index [i]. *)
Inductive placed_from (env : Env) (rows cols start_index padding : Z)
    (font : Font) (img_max : Z * Z) : Z -> list Path -> list (list DrawOp) -> Prop :=
| placed_nil i : placed_from env rows cols start_index padding font img_max i [] []
| placed_cons i path paths ops opss :
    placed env rows cols start_index padding font img_max i path ops ->
    placed_from env rows cols start_index padding font img_max (i + 1) paths opss ->
    placed_from env rows cols start_index padding font img_max i
      (path :: paths) (ops :: opss).

(** [truetype] refuses the face with an [IOError]. *)
Definition font_missing (env : Env) (font_size_px : Z) (name : string) : Prop :=
  exists e, truetype env name font_size_px = Raise e /\ is_IOError e = true.

(** *** The driver's loop *)

(** The file of page [k], counted from 0. *)
Definition page_name (k : nat) : string := page_file_name (Z.of_nat k + 1).

(** The values of [i] the loop goes through for the pages [ks]. *)
Definition starts (images_per_page : Z) (ks : list nat) : list Z :=
  (fun k => Z.of_nat k * images_per_page) <$> ks.

(** The body of the driver's loop, with the content size of lines 178-179. *)
Definition page_body (env : Env) (image_list : list Path) (rows cols : Z)
  : Z -> list PdfPage -> io (list PdfPage) :=
  add_page env image_list rows cols (rows * cols) (content_width, content_height).

(** Page [k] can be composed and its file written. *)
Definition page_good (env : Env) (image_list : list Path) (rows cols : Z)
    (k : nat) : Prop :=
  is_ok (page_canvas env image_list rows cols k) = true /\
  save_error env (page_name k) = None.

(** *** A concrete installation, for running the program

    Only DejaVu Sans is installed; [missing.png] does not exist, [thin.png]
    is 1 x 1000 pixels, [big.png] is 2000 x 1000, every other path holds an
    image of 600 x 800.  Resizing refuses empty sizes, as Pillow does. *)
Definition demo_env : Env := {|
  truetype := fun name size_ =>
    if String.eqb name "DejaVuSans.ttf"
    then Ok {| face := name; size_px := size_ |}
    else Raise (OSError "cannot open resource");
  image_open := fun path =>
    if String.eqb path "missing.png" then Raise (OSError "No such file or directory")
    else if String.eqb path "thin.png" then Ok {| size := (1, 1000); pixels := [] |}
    else if String.eqb path "big.png" then Ok {| size := (2000, 1000); pixels := [] |}
    else Ok {| size := (600, 800); pixels := [] |};
  image_resize := fun img new_size =>
    if (new_size.1 <? 1) || (new_size.2 <? 1)
    then Raise (ValueError "height and width must be > 0")
    else Ok {| size := new_size; pixels := pixels img |};
  textbbox := fun font at_ text =>
    (at_.1, at_.2, at_.1 + size_px font * Z.of_nat (String.length text),
     at_.2 + size_px font);
  mkdir_error := None;
  save_error := fun _ => None;
  output_error := None
|}.

(** The same installation with a disk on which the PDF cannot be written. *)
Definition demo_env_no_output : Env := {|
  truetype := truetype demo_env;
  image_open := image_open demo_env;
  image_resize := image_resize demo_env;
  textbbox := textbbox demo_env;
  mkdir_error := None;
  save_error := fun _ => None;
  output_error := Some (OSError "Permission denied")
|}.

(** The same installation without any of the candidate fonts. *)
Definition demo_env_no_font : Env := {|
  truetype := fun _ _ => Raise (OSError "cannot open resource");
  image_open := image_open demo_env;
  image_resize := image_resize demo_env;
  textbbox := textbbox demo_env;
  mkdir_error := None;
  save_error := fun _ => None;
  output_error := None
|}.

Definition seven_images : list Path :=
  ["a.png"; "b.png"; "c.png"; "d.png"; "e.png"; "f.png"; "g.png"].

(** Nothing from an earlier run is on the disk. *)
Definition fresh_fs : FS := {| temp_dir := None; output_pdf := None |}.

(** The run of the end-to-end scenario of the spec: seven images on a
    2 x 2 grid. *)
Definition demo_run : result () * FS :=
  create_pdf_from_images demo_env seven_images 2 2 fresh_fs.

(** *** The geometry as the spec words it *)

(** "(physical page size - 2 x margin) x density, floored": one floor of
    the exact product, the page size being given in hundredths of a point. *)
Definition single_floor_px (page_hundredths : Z) : Z :=
  ((page_hundredths - 100 * (2 * MARGIN_PT)) * DPI) / (100 * PT_PER_INCH).

(** The size in points floored to whole points, then scaled and floored. *)
Definition double_floor_px (page_hundredths : Z) : Z :=
  (((page_hundredths - 100 * (2 * MARGIN_PT)) / 100) * DPI) / PT_PER_INCH.

(** *** The ordinal as the spec words it

    "(n)": the decimal digits of [n], most significant first, between
    parentheses.  Written here digit by digit, without the f-string and
    the [str] of the source. *)

(** The character of a decimal digit; ["0"] has code 48. *)
Definition digit (d : Z) : Ascii.ascii := Ascii.ascii_of_nat (48 + Z.to_nat d).

Fixpoint decimal_go (fuel : nat) (n : Z) : string :=
  match fuel with
  | O => ""
  | S fuel =>
      (if n <? 10 then "" else decimal_go fuel (n / 10))
        +:+ String (digit (n mod 10)) ""
  end.

(** A number has no more decimal digits than binary ones. *)
Definition decimal (n : Z) : string := decimal_go (S (Z.to_nat (Z.log2 n))) n.

Definition ordinal_text (n : Z) : string := "(" +:+ decimal n +:+ ")".

(** ** Vocabulary of the further properties *)

(** The order of two canonical positive numbers, read on mantissa and
    exponent. *)
Definition fle (m : positive) (e : Z) (m' : positive) (e' : Z) : Prop :=
  e < e' \/ (e = e' /\ Z.pos m <= Z.pos m').

(** The installation of [demo_env] with a FreeType that refuses sizes below
    one, as Pillow does, whatever the face. *)
Definition demo_env_sized : Env := {|
  truetype := fun name size_ =>
    if size_ <? 1 then Raise (ValueError "font size must be greater than 0")
    else truetype demo_env name size_;
  image_open := image_open demo_env;
  image_resize := image_resize demo_env;
  textbbox := textbbox demo_env;
  mkdir_error := None;
  save_error := fun _ => None;
  output_error := None
|}.

(** The directory after the loop has saved the pages [ks] with the canvases
    [cv]. *)
Definition saved_pages (cv : nat -> Canvas) (ks : list nat)
    (files : gmap string File) : gmap string File :=
  foldl (fun m k => <[page_name k := PngFile (cv k)]> m) files ks.

(** The number of pages the driver goes through. *)
Definition page_count (image_list : list Path) (rows cols : Z) : nat :=
  Z.to_nat (ceil_div (len image_list) (rows * cols)).

(** Page [k] cannot be composed, or it can and its file cannot be written;
    [e] is the exception raised. *)
Definition page_fails (env : Env) (image_list : list Path) (rows cols : Z)
    (k : nat) (e : exn) : Prop :=
  page_canvas env image_list rows cols k = Raise e \/
  (is_ok (page_canvas env image_list rows cols k) = true /\
   save_error env (page_name k) = Some e).

(** The canvas of a page of the concrete installation. *)
Definition demo_canvas (image_list : list Path) (rows cols : Z) (k : nat) : Canvas :=
  match page_canvas demo_env image_list rows cols k with
  | Ok c => c
  | Raise _ => new_white (0, 0)
  end.

(** The installation of [demo_env] on a disk on which the temporary
    directory cannot be created. *)
Definition demo_env_no_mkdir : Env := {|
  truetype := truetype demo_env;
  image_open := image_open demo_env;
  image_resize := image_resize demo_env;
  textbbox := textbbox demo_env;
  mkdir_error := Some (OSError "Permission denied");
  save_error := fun _ => None;
  output_error := None
|}.

(** A directory left by somebody else: a text file and an image. *)
Definition cluttered_fs : FS :=
  {| temp_dir := Some (<["notes.txt" := OtherFile]> (<["old.png" := OtherFile]> ∅));
     output_pdf := None |}.

(** [a] is not after [b] in the order of the keys, which is the order of
    [str]: code unit by code unit, a proper prefix first. *)
Definition key_le {A} (key : A -> string) (a b : A) : Prop :=
  String.le (key a) (key b).

(** A folder to run [main] on: three images and a text file, as the system
    lists them. *)
Definition demo_ls : Listing := fun input_dir =>
  if String.eqb input_dir "clothes"
  then Some ["b.png"; "a-b.png"; "notes.txt"; "a.png"]
  else None.

Definition demo_main_run : result () * FS :=
  main demo_env demo_ls "clothes" 2 2 fresh_fs.

(** * Properties *)

(** ** Binary64 arithmetic on integers below 2^53

    What the fitter needs of IEEE arithmetic: a quotient of two such
    integers is a normal number that is at least 1 when the dividend is at
    least the divisor, multiplying by 1.0 is exact, and multiplying by a
    number below 1 never exceeds the integer factor. *)

Section FloatFacts.

Lemma fexp_eq x : fexp prec emax x = Z.max (x - 53) (-1074).
Proof. reflexivity. Qed.

Lemma digits2_pos_size p : digits2_pos p = Pos.size p.
Proof. induction p; simpl; congruence. Qed.

Lemma Zdigits2_log2 m : 0 < m -> Zdigits2 m = Z.log2 m + 1.
Proof.
  destruct m as [|p|p]; try lia. intros _. simpl.
  rewrite digits2_pos_size. destruct p; simpl; lia.
Qed.

Lemma iter_pos_nat {A} (f : A -> A) p x :
  SpecFloat.iter_pos f p x = Nat.iter (Pos.to_nat p) f x.
Proof.
  revert x. induction p as [p IH|p IH|]; intros x; cbn [SpecFloat.iter_pos].
  - rewrite !IH, Pos2Nat.inj_xI, <- Nat.iter_succ_r, <- Nat.iter_add.
    f_equal. lia.
  - rewrite !IH, Pos2Nat.inj_xO, <- Nat.iter_add. f_equal. lia.
  - reflexivity.
Qed.

Lemma shr_1_nonneg m r s :
  0 <= m ->
  shr_1 (Build_shr_record m r s) = Build_shr_record (m / 2) (Z.odd m) (r || s).
Proof.
  intros Hm. destruct m as [|p|p]; try lia.
  - reflexivity.
  - destruct p as [p|p|]; simpl; try reflexivity.
    + rewrite <- (Z.div2_div (Zpos p~1)). reflexivity.
    + rewrite <- (Z.div2_div (Zpos p~0)). reflexivity.
Qed.

Lemma shr_iter n m r s :
  0 <= m ->
  let mrs := Nat.iter n shr_1 (Build_shr_record m r s) in
  shr_m mrs = m / 2 ^ Z.of_nat n /\
  (inexact mrs = false <-> m mod 2 ^ Z.of_nat n = 0 /\ r || s = false).
Proof.
  intros Hm. induction n as [|n IH].
  - simpl. rewrite Z.div_1_r, Z.mod_1_r. unfold inexact; simpl. tauto.
  - cbn zeta in *. rewrite Nat.iter_succ.
    destruct (Nat.iter n shr_1 _) as [m' r' s'] eqn:E.
    simpl in IH. destruct IH as [IHm IHx].
    assert (Hp : 0 < 2 ^ Z.of_nat n) by (apply Z.pow_pos_nonneg; lia).
    assert (Hm' : 0 <= m') by (subst m'; apply Z.div_pos; lia).
    rewrite shr_1_nonneg by assumption. simpl.
    rewrite Nat2Z.inj_succ, Z.pow_succ_r by lia.
    split.
    + subst m'. rewrite Z.div_div by lia. f_equal. lia.
    + unfold inexact in *; simpl in *.
      rewrite (Z.mul_comm 2), Z.rem_mul_r by lia.
      rewrite <- IHm. rewrite orb_false_iff, <- Z.negb_even, negb_false_iff.
      rewrite IHx. rewrite Zeven_bool_iff, Zeven_ex_iff.
      pose proof (Z.mod_pos_bound m (2 ^ Z.of_nat n) Hp).
      pose proof (Z.mod_pos_bound m' 2 ltac:(lia)).
      split.
      * intros [[k Hk] [H1 H2]]. split; [|assumption].
        rewrite H1. rewrite Hk. rewrite (Z.mul_comm 2 k), Z.mod_mul by lia. lia.
      * intros [H1 H2]. 
        assert (m mod 2 ^ Z.of_nat n = 0) by nia.
        assert (m' mod 2 = 0) by nia.
        split; [|tauto]. exists (m' / 2). 
        pose proof (Z.div_mod m' 2 ltac:(lia)). lia.
Qed.

Lemma shr_spec m l e n :
  0 <= m -> 0 <= n ->
  exists mrs,
    shr (shr_record_of_loc m l) e n = (mrs, e + n) /\
    shr_m mrs = m / 2 ^ n /\
    (inexact mrs = false <-> m mod 2 ^ n = 0 /\ l = loc_Exact).
Proof.
  intros Hm Hn.
  assert (Hl : forall b, (shr_r (shr_record_of_loc m l)
                          || shr_s (shr_record_of_loc m l) = false /\ b)
                         <-> (b /\ l = loc_Exact)).
  { intros b. destruct l as [|[]]; simpl; intuition congruence. }
  assert (Hrec : shr_record_of_loc m l
                 = Build_shr_record m (shr_r (shr_record_of_loc m l))
                     (shr_s (shr_record_of_loc m l))).
  { destruct l as [|[]]; reflexivity. }
  destruct n as [|p|p]; try lia.
  - exists (shr_record_of_loc m l). simpl. rewrite Z.add_0_r, Z.div_1_r, Z.mod_1_r.
    split; [reflexivity|]. split; [destruct l as [|[]]; reflexivity|].
    unfold inexact. specialize (Hl True). tauto.
  - exists (SpecFloat.iter_pos shr_1 p (shr_record_of_loc m l)).
    split; [reflexivity|]. rewrite iter_pos_nat, Hrec.
    pose proof (shr_iter (Pos.to_nat p) m (shr_r (shr_record_of_loc m l))
                  (shr_s (shr_record_of_loc m l)) Hm) as H.
    cbn zeta in H. rewrite positive_nat_Z in H. destruct H as [H1 H2].
    split; [exact H1|]. rewrite H2. 
    specialize (Hl (m mod 2 ^ Z.pos p = 0)). tauto.
Qed.

Lemma round_nearest_even_spec mrs :
  let q := round_nearest_even (shr_m mrs) (loc_of_shr_record mrs) in
  shr_m mrs <= q <= shr_m mrs + 1 /\ (inexact mrs = false -> q = shr_m mrs).
Proof.
  destruct mrs as [m [] []]; unfold inexact; simpl;
    try destruct (Z.even m); split; try lia; discriminate.
Qed.

(** Rounding a positive mantissa of at least 53 bits in the normal range:
    the result is the mantissa cut to 53 bits, or its successor when bits
    were lost. *)
Lemma binary_round_aux_pos m e l :
  0 < m ->
  let k := Z.log2 m - 52 in
  0 <= k -> -1074 <= e + k <= 970 ->
  exists q,
    m / 2 ^ k <= q <= m / 2 ^ k + 1 /\
    (l = loc_Exact -> m mod 2 ^ k = 0 -> q = m / 2 ^ k) /\
    binary_round_aux prec emax false m e l =
      if q =? 2 ^ 53 then S754_finite false (2 ^ 52) (e + k + 1)
      else S754_finite false (Z.to_pos q) (e + k).
Proof.
  intros Hm k Hk He.
  pose proof (Z.log2_spec m Hm) as Hlog.
  assert (Hpk : 0 < 2 ^ k) by (apply Z.pow_pos_nonneg; lia).
  assert (Hq0 : 2 ^ 52 <= m / 2 ^ k < 2 ^ 53).
  { replace (Z.log2 m) with (52 + k) in Hlog by lia.
    replace (Z.succ (52 + k)) with (53 + k) in Hlog by lia.
    rewrite !Z.pow_add_r in Hlog by lia. split.
    - apply Z.div_le_lower_bound; lia.
    - apply Z.div_lt_upper_bound; lia. }
  unfold binary_round_aux, shr_fexp.
  rewrite fexp_eq, Zdigits2_log2 by assumption.
  replace (Z.max (Z.log2 m + 1 + e - 53) (-1074) - e) with k by lia.
  destruct (shr_spec m l e k ltac:(lia) Hk) as (mrs & -> & Hmrs & Hx).
  pose proof (round_nearest_even_spec mrs) as Hrne. cbn zeta in Hrne.
  set (q := round_nearest_even (shr_m mrs) (loc_of_shr_record mrs)) in *.
  rewrite Hmrs in Hrne. destruct Hrne as [Hq Hex].
  exists q. split; [assumption|]. split; [tauto|].
  rewrite fexp_eq, Zdigits2_log2 by lia.
  destruct (Z.eqb_spec q (2 ^ 53)) as [E|E].
  - rewrite E. change (Z.log2 (2 ^ 53)) with 53.
    replace (Z.max (53 + 1 + (e + k) - 53) (-1074) - (e + k)) with 1 by lia.
    simpl shr. cbn [shr_m].
    destruct (Z.leb_spec (e + k + 1) (emax - prec)) as [_|Hbad]; [reflexivity|].
    unfold emax, prec in Hbad. lia.
  - assert (Z.log2 q = 52) as ->.
    { apply Z.log2_unique; lia. }
    replace (Z.max (52 + 1 + (e + k) - 53) (-1074) - (e + k)) with 0 by lia.
    simpl shr. cbn [shr_m shr_record_of_loc fst snd].
    destruct q as [|p|p]; try lia. simpl Z.to_pos.
    destruct (Z.leb_spec (e + k) (emax - prec)) as [_|Hbad]; [reflexivity|].
    unfold emax, prec in Hbad. lia.
Qed.

Lemma pos_iter_xO p n : Z.pos (Pos.iter xO p n) = Z.pos p * 2 ^ Z.pos n.
Proof.
  induction n as [|n IH] using Pos.peano_ind.
  - simpl. lia.
  - rewrite Pos.iter_succ, Pos2Z.inj_xO, IH, Pos2Z.inj_succ, Z.pow_succ_r; lia.
Qed.

Lemma float_of_int_spec w :
  0 < w < 2 ^ 53 ->
  let s := 52 - Z.log2 w in
  float_of_int w = Ok (S754_finite false (Z.to_pos (w * 2 ^ s)) (- s)).
Proof.
  intros Hw s. pose proof (Z.log2_spec w ltac:(lia)) as Hlog.
  assert (Hs : 0 <= s <= 52).
  { unfold s. pose proof (Z.log2_nonneg w).
    assert (Z.log2 w < 53) by (apply Z.log2_lt_pow2; lia). lia. }
  assert (Hm : 2 ^ 52 <= w * 2 ^ s < 2 ^ 53).
  { replace 52 with (Z.log2 w + s) at 1 by lia.
    replace 53 with (Z.succ (Z.log2 w) + s) by lia.
    rewrite !Z.pow_add_r by lia.
    assert (0 < 2 ^ s) by (apply Z.pow_pos_nonneg; lia). nia. }
  unfold float_of_int. destruct w as [|p|p]; try lia.
  unfold binary_normalize, binary_round.
  rewrite fexp_eq. change (Z.pos (digits2_pos p)) with (Zdigits2 (Z.pos p)).
  rewrite Zdigits2_log2 by lia.
  replace (Z.max (Z.log2 (Z.pos p) + 1 + 0 - 53) (-1074)) with (- s) by lia.
  assert (Hal : exists mz, shl_align p 0 (- s) = (mz, - s)
                           /\ Z.pos mz = Z.pos p * 2 ^ s).
  { unfold shl_align. rewrite Z.sub_0_r. destruct s as [|n|n]; try lia.
    - exists p. simpl. split; [reflexivity|lia].
    - exists (Pos.iter xO p n). simpl Z.opp. cbv iota. split; [reflexivity|].
      apply pos_iter_xO. }
  destruct Hal as (mz & -> & Hmz).
  destruct (binary_round_aux_pos (Z.pos mz) (- s) loc_Exact ltac:(lia))
    as (q & Hq & Hex & E).
  all: assert (Z.log2 (Z.pos mz) = 52) as Hl
      by (apply Z.log2_unique; lia).
  all: rewrite Hl in *; try lia.
  change (2 ^ (52 - 52)) with 1 in *. rewrite Z.mod_1_r, Z.div_1_r in *.
  rewrite (Hex eq_refl eq_refl) in E. rewrite E.
  destruct (Z.eqb_spec (Z.pos mz) (2 ^ 53)); [lia|].
  rewrite <- Hmz. simpl Z.to_pos. replace (- s + (52 - 52)) with (- s) by lia.
  reflexivity.
Qed.


Lemma ltb_one_r x m e :
  normal x m e -> SFltb one x = false -> x = one \/ e <= -53.
Proof.
  intros [-> Hm]. unfold SFltb, one, SFcompare.
  destruct (Z.compare_spec (-52) e) as [<-|Hlt|Hgt]; try discriminate.
  - fold (Pos.compare (2 ^ 52) m).
    destruct (Pos.compare_spec (2 ^ 52) m) as [<-|Hlt|Hgt]; try discriminate.
    + intros _. left. reflexivity.
    + intros _. exfalso.
      assert (Z.pos m < Z.pos (2 ^ 52)) by (apply Pos2Z.pos_lt_pos; assumption).
      change (Z.pos (2 ^ 52)) with (2 ^ 52) in *. lia.
  - intros _. right. lia.
Qed.


Lemma SFmul_pos m1 e1 m2 e2 :
  SFmul prec emax (S754_finite false m1 e1) (S754_finite false m2 e2)
  = binary_round_aux prec emax false (Z.pos m1 * Z.pos m2) (e1 + e2) loc_Exact.
Proof. reflexivity. Qed.

Lemma mul_int_float_one w :
  0 < w < 2 ^ 53 -> mul_int_float w one ≫= int_ = Ok w.
Proof.
  intros Hw. unfold mul_int_float. rewrite float_of_int_spec by assumption.
  set (s := 52 - Z.log2 w).
  pose proof (Z.log2_spec w ltac:(lia)) as Hlog.
  assert (Hs : 0 <= s <= 52).
  { unfold s. pose proof (Z.log2_nonneg w).
    assert (Z.log2 w < 53) by (apply Z.log2_lt_pow2; lia). lia. }
  assert (Hps : 0 < 2 ^ s) by (apply Z.pow_pos_nonneg; lia).
  assert (Hm : 2 ^ 52 <= w * 2 ^ s < 2 ^ 53).
  { replace 52 with (Z.log2 w + s) at 1 by lia.
    replace 53 with (Z.succ (Z.log2 w) + s) by lia.
    rewrite !Z.pow_add_r by lia. nia. }
  cbn [mbind result_bind]. unfold one. rewrite SFmul_pos.
  rewrite Z2Pos.id by lia. change (Z.pos (2 ^ 52)) with (2 ^ 52).
  set (M := w * 2 ^ s * 2 ^ 52).
  assert (HlM : Z.log2 M = 104).
  { apply Z.log2_unique; [lia|]. unfold M.
    change (2 ^ 104) with (2 ^ 52 * 2 ^ 52).
    change (2 ^ (104 + 1)) with (2 ^ 53 * 2 ^ 52). nia. }
  destruct (binary_round_aux_pos M (- s + -52) loc_Exact) as (q & Hq & Hex & E);
    rewrite ?HlM; try lia.
  rewrite HlM in *. change (104 - 52) with 52 in *.
  assert (Hdiv : M / 2 ^ 52 = w * 2 ^ s) by (unfold M; apply Z.div_mul; lia).
  assert (Hmod : M mod 2 ^ 52 = 0) by (unfold M; apply Z.mod_mul; lia).
  rewrite (Hex eq_refl Hmod), Hdiv in E. rewrite E.
  destruct (Z.eqb_spec (w * 2 ^ s) (2 ^ 53)); [lia|].
  cbn [int_ cond_Zopp]. rewrite Z2Pos.id by lia.
  replace (- s + -52 + 52) with (- s) by lia.
  rewrite Z.shiftl_div_pow2 by lia. rewrite Z.opp_involutive.
  rewrite Z.div_mul by lia. reflexivity.
Qed.

Lemma mul_int_float_le w x m e :
  0 < w < 2 ^ 53 -> normal x m e -> -1000 <= e <= -53 ->
  exists n, mul_int_float w x ≫= int_ = Ok n /\ 0 <= n <= w.
Proof.
  intros Hw [-> Hm] He. unfold mul_int_float.
  rewrite float_of_int_spec by assumption.
  set (s := 52 - Z.log2 w).
  pose proof (Z.log2_spec w ltac:(lia)) as Hlog.
  assert (Hs : 0 <= s <= 52).
  { unfold s. pose proof (Z.log2_nonneg w).
    assert (Z.log2 w < 53) by (apply Z.log2_lt_pow2; lia). lia. }
  assert (Hps : 0 < 2 ^ s) by (apply Z.pow_pos_nonneg; lia).
  assert (Hmw : 2 ^ 52 <= w * 2 ^ s < 2 ^ 53).
  { replace 52 with (Z.log2 w + s) at 1 by lia.
    replace 53 with (Z.succ (Z.log2 w) + s) by lia.
    rewrite !Z.pow_add_r by lia. nia. }
  cbn [mbind result_bind]. rewrite SFmul_pos, Z2Pos.id by lia.
  set (M := w * 2 ^ s * Z.pos m).
  assert (HM : 2 ^ 104 <= M < 2 ^ 106).
  { unfold M. change (2 ^ 104) with (2 ^ 52 * 2 ^ 52).
    change (2 ^ 106) with (2 ^ 53 * 2 ^ 53). nia. }
  assert (HlM : Z.log2 M = 104 \/ Z.log2 M = 105).
  { destruct (Z_lt_le_dec M (2 ^ 105)).
    - left. apply Z.log2_unique; lia.
    - right. apply Z.log2_unique; lia. }
  set (k := Z.log2 M - 52) in *.
  assert (Hk : 52 <= k <= 53) by lia.
  destruct (binary_round_aux_pos M (- s + e) loc_Exact) as (q & Hq & _ & E);
    fold k; try lia.
  fold k in Hq, E.
  set (t := - (e + k)). assert (Ht : 0 <= t) by lia.
  assert (Hpk : 0 < 2 ^ k) by (apply Z.pow_pos_nonneg; lia).
  assert (Hpt : 0 < 2 ^ t) by (apply Z.pow_pos_nonneg; lia).
  assert (Hq0 : 2 ^ 52 <= M / 2 ^ k).
  { apply Z.div_le_lower_bound; [lia|].
    assert (2 ^ k <= 2 ^ 53) by (apply Z.pow_le_mono_r; lia).
    destruct HlM as [Hl|Hl].
    - replace k with 52 by lia. change (2 ^ 52 * 2 ^ 52) with (2 ^ 104). lia.
    - pose proof (Z.log2_spec M ltac:(lia)) as HsM. rewrite Hl in HsM.
      replace k with 53 by lia. change (2 ^ 53 * 2 ^ 52) with (2 ^ 105). lia. }
  assert (HqK : q <= w * 2 ^ (s + t)).
  { assert (M / 2 ^ k < w * 2 ^ (s + t)); [|lia].
    apply Z.div_lt_upper_bound; [lia|].
    assert (2 ^ 53 <= 2 ^ (k + t)) by (apply Z.pow_le_mono_r; lia).
    rewrite !Z.pow_add_r in * by lia. unfold M. nia. }
  replace (- s + e + k) with (- (s + t)) in E by lia.
  assert (Hpst : 0 < 2 ^ (s + t)) by (apply Z.pow_pos_nonneg; lia).
  rewrite E. destruct (Z.eqb_spec q (2 ^ 53)) as [Eq|Nq].
  - cbn [int_ cond_Zopp]. change (Z.pos (2 ^ 52)) with (2 ^ 52).
    destruct (Z.eq_dec (s + t) 0) as [Z0|NZ].
    { rewrite Z0 in HqK. change (2 ^ 0) with 1 in HqK. lia. }
    rewrite Z.shiftl_div_pow2 by lia.
    replace (- (- (s + t) + 1)) with (s + t - 1) by lia.
    eexists. split; [reflexivity|].
    assert (0 < 2 ^ (s + t - 1)) by (apply Z.pow_pos_nonneg; lia).
    split; [apply Z.div_pos; lia|].
    apply Z.div_le_upper_bound; [lia|].
    replace (s + t) with (Z.succ (s + t - 1)) in HqK by lia.
    rewrite Z.pow_succ_r in HqK by lia.
    change (2 ^ 53) with (2 * 2 ^ 52) in Eq. lia.
  - cbn [int_ cond_Zopp]. rewrite Z2Pos.id by lia.
    rewrite Z.shiftl_div_pow2 by lia. rewrite Z.opp_involutive.
    eexists. split; [reflexivity|].
    split; [apply Z.div_pos; lia|].
    apply Z.div_le_upper_bound; lia.
Qed.
End FloatFacts.








(** ** Binary64: the quotient from above

    For the bound of the fitted size by the cell: the rounded quotient
    [a / b] exceeds the exact one by less than [1 / (2 b)] when [a] is
    below 2^50, it is below 1 when [a < b], and a product [w * x] whose
    exact value is at most [c + 1/2] truncates to at most [c]. *)

Lemma int_truediv_raw a b :
  0 < a < 2 ^ 53 -> 0 < b < 2 ^ 53 ->
  let s := 53 + Z.log2 b - Z.log2 a in
  let q := a * 2 ^ s / b in
  let k := Z.log2 q - 52 in
  exists q',
    0 <= k <= 1 /\ q / 2 ^ k <= q' <= q / 2 ^ k + 1 /\
    2 ^ 52 <= q / 2 ^ k < 2 ^ 53 /\
    int_truediv a b =
      if q' =? 2 ^ 53 then S754_finite false (2 ^ 52) (- s + k + 1)
      else S754_finite false (Z.to_pos q') (- s + k).
Proof.
  intros Ha Hb s q k.
  pose proof (Z.log2_spec a ltac:(lia)) as Hla.
  pose proof (Z.log2_spec b ltac:(lia)) as Hlb.
  pose proof (Z.log2_nonneg a). pose proof (Z.log2_nonneg b).
  assert (Z.log2 a < 53) by (apply Z.log2_lt_pow2; lia).
  assert (Z.log2 b < 53) by (apply Z.log2_lt_pow2; lia).
  assert (Hs : 1 <= s <= 105) by (unfold s; lia).
  assert (Hcore : SFdiv_core_binary prec emax a 0 b 0
                  = (q, - s, new_location b ((a * 2 ^ s) mod b))).
  { unfold SFdiv_core_binary. rewrite fexp_eq, !Zdigits2_log2 by lia.
    replace (Z.min (Z.max (Z.log2 a + 1 + 0 - (Z.log2 b + 1 + 0) - 53) (-1074)) (0 - 0))
      with (- s) by lia.
    replace (0 - 0 - - s) with s by lia. unfold q.
    destruct s as [|n|n] eqn:Es; try lia.
    rewrite Z.shiftl_mul_pow2 by lia.
    unfold Z.div, Z.modulo. destruct (Z.div_eucl _ _). reflexivity. }
  assert (Hps : 0 < 2 ^ s) by (apply Z.pow_pos_nonneg; lia).
  assert (Hq : 2 ^ 52 <= q < 2 ^ 54).
  { assert (E1 : 2 ^ Z.log2 a * 2 ^ s = 2 ^ 52 * 2 ^ Z.succ (Z.log2 b)).
    { rewrite <- !Z.pow_add_r by lia. f_equal. lia. }
    assert (E2 : 2 ^ Z.succ (Z.log2 a) * 2 ^ s = 2 ^ 54 * 2 ^ Z.log2 b).
    { rewrite <- !Z.pow_add_r by lia. f_equal. lia. }
    unfold q. split.
    - apply Z.div_le_lower_bound; nia.
    - apply Z.div_lt_upper_bound; nia. }
  assert (Hlq : Z.log2 q = 52 \/ Z.log2 q = 53).
  { destruct (Z_lt_le_dec q (2 ^ 53)).
    - left. apply Z.log2_unique; lia.
    - right. apply Z.log2_unique; lia. }
  destruct (binary_round_aux_pos q (- s) (new_location b ((a * 2 ^ s) mod b)))
    as (q' & Hq' & _ & E); try lia.
  fold k in Hq', E.
  assert (Hqk : 2 ^ 52 <= q / 2 ^ k < 2 ^ 53).
  { pose proof (Z.log2_spec q ltac:(lia)) as Hsq. unfold k.
    destruct Hlq as [Hl | Hl]; rewrite Hl in *.
    - change (2 ^ (52 - 52)) with 1. rewrite Z.div_1_r.
      change (Z.succ 52) with 53 in Hsq. lia.
    - change (2 ^ (53 - 52)) with 2.
      split; [apply Z.div_le_lower_bound|apply Z.div_lt_upper_bound]; lia. }
  exists q'. split; [unfold k; lia|]. split; [exact Hq'|]. split; [exact Hqk|].
  unfold int_truediv. destruct a as [|pa|pa], b as [|pb|pb]; try lia.
  unfold exact_int, SFdiv. rewrite Hcore. simpl xorb. exact E.
Qed.

Lemma int_truediv_upper a b :
  0 < a < 2 ^ 50 -> 0 < b < 2 ^ 53 ->
  exists m e,
    normal (int_truediv a b) m e /\ -106 <= e <= -1 /\
    2 * b * Z.pos m <= (2 * a + 1) * 2 ^ (- e) /\
    (a < b -> e <= -53).
Proof.
  intros Ha Hb.
  destruct (int_truediv_raw a b ltac:(lia) Hb) as (q' & Hk & Hq' & Hqk & E).
  pose proof (Z.log2_spec a ltac:(lia)) as Hla.
  pose proof (Z.log2_spec b ltac:(lia)) as Hlb.
  pose proof (Z.log2_nonneg a). pose proof (Z.log2_nonneg b).
  assert (Z.log2 a < 50) by (apply Z.log2_lt_pow2; lia).
  assert (Z.log2 b < 53) by (apply Z.log2_lt_pow2; lia).
  set (s := 53 + Z.log2 b - Z.log2 a) in *.
  set (q := a * 2 ^ s / b) in *.
  set (k := Z.log2 q - 52) in *.
  assert (Hs : 4 + Z.log2 b <= s <= 105) by (unfold s; lia).
  assert (Hps : 0 < 2 ^ s) by (apply Z.pow_pos_nonneg; lia).
  assert (Hpk : 0 < 2 ^ k) by (apply Z.pow_pos_nonneg; lia).
  assert (Hpsk : 0 < 2 ^ (s - k)) by (apply Z.pow_pos_nonneg; lia).
  assert (Esk : 2 ^ s = 2 ^ (s - k) * 2 ^ k).
  { rewrite <- Z.pow_add_r by lia. f_equal. lia. }
  assert (Hbk : 2 * b * 2 ^ k <= 2 ^ s).
  { assert (2 ^ k <= 2 ^ 1) by (apply Z.pow_le_mono_r; lia).
    assert (2 ^ (4 + Z.log2 b) <= 2 ^ s) by (apply Z.pow_le_mono_r; lia).
    rewrite Z.pow_add_r in * by lia.
    replace (Z.succ (Z.log2 b)) with (1 + Z.log2 b) in Hlb by lia.
    rewrite Z.pow_add_r in Hlb by lia. change (2 ^ 1) with 2 in *.
    change (2 ^ 4) with 16 in *. nia. }
  assert (Hbq : b * q <= a * 2 ^ s).
  { unfold q. apply Z.mul_div_le. lia. }
  assert (Hqq : q / 2 ^ k * 2 ^ k <= q).
  { rewrite Z.mul_comm. apply Z.mul_div_le. lia. }
  assert (Hval : 2 * b * q' <= (2 * a + 1) * 2 ^ (s - k)).
  { rewrite Esk in Hbk, Hbq.
    assert (2 * b * q' * 2 ^ k <= 2 * b * (q / 2 ^ k * 2 ^ k) + 2 * b * 2 ^ k) by nia.
    assert (2 * b * q' * 2 ^ k <= (2 * a + 1) * 2 ^ (s - k) * 2 ^ k) by nia.
    nia. }
  assert (Hlow : a < b -> q' < 2 ^ (s - k)).
  { intros Hab. assert (q / 2 ^ k < 2 ^ (s - k) - 1); [|lia].
    unfold q. rewrite Z.div_div by lia.
    apply Z.div_lt_upper_bound; [nia|]. nia. }
  unfold normal. rewrite E.
  destruct (Z.eqb_spec q' (2 ^ 53)) as [E53|N53].
  - exists (2 ^ 52)%positive, (- s + k + 1).
    split; [split; [reflexivity|change (Z.pos (2 ^ 52)) with (2 ^ 52); lia]|].
    split; [lia|]. split.
    + replace (- (- s + k + 1)) with (s - k - 1) by lia.
      assert (2 ^ (s - k) = 2 * 2 ^ (s - k - 1)).
      { rewrite <- Z.pow_succ_r by lia. f_equal. lia. }
      change (Z.pos (2 ^ 52)) with (2 ^ 52). change (2 ^ 53) with (2 * 2 ^ 52) in E53.
      nia.
    + intros Hab. specialize (Hlow Hab). rewrite E53 in Hlow.
      apply Z.pow_lt_mono_r_iff in Hlow; lia.
  - exists (Z.to_pos q'), (- s + k).
    split; [split; [reflexivity|rewrite Z2Pos.id; lia]|]. split; [lia|]. split.
    + rewrite Z2Pos.id by lia. replace (- (- s + k)) with (s - k) by lia. exact Hval.
    + intros Hab. specialize (Hlow Hab).
      assert (Hpow : 2 ^ 52 < 2 ^ (s - k)) by lia.
      apply Z.pow_lt_mono_r_iff in Hpow; lia.
Qed.

Lemma mul_int_float_below w x m e c :
  0 < w < 2 ^ 52 -> normal x m e -> -1000 <= e <= -53 -> 0 <= c ->
  2 * w * Z.pos m <= (2 * c + 1) * 2 ^ (- e) ->
  exists n, mul_int_float w x ≫= int_ = Ok n /\ 0 <= n <= c.
Proof.
  intros Hw [-> Hm] He Hc Hval. unfold mul_int_float.
  rewrite float_of_int_spec by lia.
  set (t := 52 - Z.log2 w).
  pose proof (Z.log2_spec w ltac:(lia)) as Hlog.
  assert (Ht : 1 <= t <= 52).
  { unfold t. pose proof (Z.log2_nonneg w).
    assert (Z.log2 w < 52) by (apply Z.log2_lt_pow2; lia). lia. }
  assert (Hpt : 0 < 2 ^ t) by (apply Z.pow_pos_nonneg; lia).
  assert (Hmw : 2 ^ 52 <= w * 2 ^ t < 2 ^ 53).
  { replace 52 with (Z.log2 w + t) at 1 by lia.
    replace 53 with (Z.succ (Z.log2 w) + t) by lia.
    rewrite !Z.pow_add_r by lia. nia. }
  cbn [mbind result_bind]. rewrite SFmul_pos, Z2Pos.id by lia.
  set (M := w * 2 ^ t * Z.pos m).
  assert (HM : 2 ^ 104 <= M < 2 ^ 106).
  { unfold M. change (2 ^ 104) with (2 ^ 52 * 2 ^ 52).
    change (2 ^ 106) with (2 ^ 53 * 2 ^ 53). nia. }
  assert (HlM : Z.log2 M = 104 \/ Z.log2 M = 105).
  { destruct (Z_lt_le_dec M (2 ^ 105)).
    - left. apply Z.log2_unique; lia.
    - right. apply Z.log2_unique; lia. }
  set (k := Z.log2 M - 52) in *.
  assert (Hk : 52 <= k <= 53) by lia.
  destruct (binary_round_aux_pos M (- t + e) loc_Exact) as (q & Hq & Hex & E);
    fold k; try lia.
  fold k in Hq, Hex, E.
  set (u := t - e - k - 1). assert (Hu : 0 <= u) by (unfold u; lia).
  assert (Hpk : 0 < 2 ^ k) by (apply Z.pow_pos_nonneg; lia).
  assert (Hpu : 0 < 2 ^ u) by (apply Z.pow_pos_nonneg; lia).
  assert (Hq0 : 2 ^ 52 <= M / 2 ^ k).
  { apply Z.div_le_lower_bound; [lia|].
    destruct HlM as [Hl|Hl].
    - replace k with 52 by lia. change (2 ^ 52 * 2 ^ 52) with (2 ^ 104). lia.
    - pose proof (Z.log2_spec M ltac:(lia)) as HsM. rewrite Hl in HsM.
      replace k with 53 by lia. change (2 ^ 53 * 2 ^ 52) with (2 ^ 105). lia. }
  assert (HMK : M <= (2 * c + 1) * 2 ^ u * 2 ^ k).
  { assert (E1 : 2 ^ (- e) * 2 ^ t = 2 * (2 ^ u * 2 ^ k)).
    { rewrite <- !Z.pow_add_r by lia.
      rewrite <- (Z.pow_succ_r 2 (u + k)) by lia. f_equal. unfold u. lia. }
    unfold M. nia. }
  assert (HqK : q <= (2 * c + 1) * 2 ^ u).
  { pose proof (Z.div_mod M (2 ^ k) ltac:(lia)) as Hdm.
    pose proof (Z.mod_pos_bound M (2 ^ k) Hpk) as Hmb.
    destruct (Z.eq_dec (M mod 2 ^ k) 0) as [Hz|Hnz].
    - rewrite (Hex eq_refl Hz). nia.
    - assert (M / 2 ^ k < (2 * c + 1) * 2 ^ u); [nia|lia]. }
  replace (- t + e + k) with (- (u + 1)) in E by (unfold u; lia).
  assert (Hpu1 : 2 ^ (u + 1) = 2 * 2 ^ u).
  { rewrite <- Z.pow_succ_r by lia. f_equal. }
  rewrite E. destruct (Z.eqb_spec q (2 ^ 53)) as [Eq|Nq].
  - cbn [int_ cond_Zopp]. change (Z.pos (2 ^ 52)) with (2 ^ 52).
    rewrite Z.shiftl_div_pow2 by lia.
    replace (- (- (u + 1) + 1)) with u by lia.
    eexists. split; [reflexivity|].
    split; [apply Z.div_pos; lia|].
    assert (2 ^ 52 / 2 ^ u < c + 1); [|lia].
    apply Z.div_lt_upper_bound; [lia|].
    change (2 ^ 53) with (2 * 2 ^ 52) in Eq. nia.
  - cbn [int_ cond_Zopp]. rewrite Z2Pos.id by lia.
    rewrite Z.shiftl_div_pow2 by lia. rewrite Z.opp_involutive.
    eexists. split; [reflexivity|].
    split; [apply Z.div_pos; lia|].
    assert (q / 2 ^ (u + 1) < c + 1); [|lia].
    apply Z.div_lt_upper_bound; [lia|]. nia.
Qed.

Lemma ltb_normal a b ma ea mb eb :
  normal a ma ea -> normal b mb eb ->
  if SFltb b a then fle mb eb ma ea else fle ma ea mb eb.
Proof.
  intros [-> Ha] [-> Hb]. unfold SFltb, SFcompare, fle.
  destruct (Z.compare_spec eb ea) as [->|Hlt|Hgt]; try lia.
  fold (Pos.compare mb ma).
  destruct (Pos.compare_spec mb ma) as [->|Hlt|Hgt]; lia.
Qed.

Lemma ltb_one_normal x m e :
  normal x m e -> SFltb one x = true -> -52 <= e.
Proof.
  intros [-> Hm]. unfold SFltb, one, SFcompare.
  destruct (Z.compare_spec (-52) e); try discriminate; lia.
Qed.

Lemma min3_bounds a b ma ea mb eb :
  normal a ma ea -> normal b mb eb ->
  let s := min3 a b one in
  (s = one /\ -52 <= ea /\ -52 <= eb) \/
  (exists m e, normal s m e /\ e <= -53 /\ Z.min ea eb <= e /\
               fle m e ma ea /\ fle m e mb eb).
Proof.
  intros Ha Hb. unfold min3.
  pose proof (ltb_normal a b ma ea mb eb Ha Hb) as Hcmp.
  assert (Hm : exists m e, normal (if SFltb b a then b else a) m e /\
                           Z.min ea eb <= e /\ fle m e ma ea /\ fle m e mb eb).
  { destruct (SFltb b a); [exists mb, eb|exists ma, ea];
      (split; [assumption|]); unfold fle in *; lia. }
  destruct Hm as (m & e & Hn & He & H1 & H2).
  set (x := if SFltb b a then b else a) in *. cbn zeta.
  destruct (SFltb one x) eqn:E.
  - left. pose proof (ltb_one_normal _ _ _ Hn E). unfold fle in *.
    split; [reflexivity|lia].
  - destruct (ltb_one_r _ _ _ Hn E) as [Eone|Hlow].
    + left. split; [exact Eone|]. destruct Hn as [Hn _]. rewrite Eone in Hn.
      injection Hn as _ <-. unfold fle in *. lia.
    + right. exists m, e. auto.
Qed.

Lemma fle_value m e m' e' w c :
  2 ^ 52 <= Z.pos m < 2 ^ 53 -> 2 ^ 52 <= Z.pos m' < 2 ^ 53 ->
  e' <= 0 -> 0 <= w -> fle m e m' e' ->
  2 * w * Z.pos m' <= c * 2 ^ (- e') ->
  2 * w * Z.pos m <= c * 2 ^ (- e).
Proof.
  intros Hm Hm' He' Hw [Hlt|[-> Hle]] Hval.
  - assert (E : 2 ^ (- e) = 2 ^ (- e') * 2 ^ (e' - e)).
    { rewrite <- Z.pow_add_r by lia. f_equal. lia. }
    assert (2 ^ 1 <= 2 ^ (e' - e)) by (apply Z.pow_le_mono_r; lia).
    assert (0 < 2 ^ (- e')) by (apply Z.pow_pos_nonneg; lia).
    change (2 ^ 1) with 2 in *. change (2 ^ 53) with (2 * 2 ^ 52) in *.
    rewrite E. nia.
  - nia.
Qed.

(** The fitted size never exceeds the cell. *)
Lemma fit_within cmw cmh w h :
  0 < cmw < 2 ^ 50 -> 0 < cmh < 2 ^ 50 -> 0 < w < 2 ^ 52 -> 0 < h < 2 ^ 52 ->
  exists nw nh,
    fit cmw cmh w h = Ok (nw, nh) /\
    0 <= nw <= cmw /\ 0 <= nh <= cmh /\ nw <= w /\ nh <= h.
Proof.
  intros Hcw Hch Hw Hh.
  destruct (int_truediv_upper cmw w Hcw ltac:(lia)) as (m1 & e1 & N1 & B1 & V1 & L1).
  destruct (int_truediv_upper cmh h Hch ltac:(lia)) as (m2 & e2 & N2 & B2 & V2 & L2).
  assert (E1 : truediv cmw w = Ok (int_truediv cmw w)).
  { unfold truediv. destruct (Z.eqb_spec w 0); [lia|]. destruct N1 as [-> _]. reflexivity. }
  assert (E2 : truediv cmh h = Ok (int_truediv cmh h)).
  { unfold truediv. destruct (Z.eqb_spec h 0); [lia|]. destruct N2 as [-> _]. reflexivity. }
  unfold fit. rewrite E1, E2. cbn [mbind result_bind].
  destruct (min3_bounds _ _ _ _ _ _ N1 N2) as [(-> & G1 & G2)|(m & e & Hn & He & Hmin & F1 & F2)].
  - rewrite !mul_int_float_one by lia. cbn [mbind result_bind].
    exists w, h. split; [reflexivity|].
    assert (w <= cmw) by (destruct (Z_lt_le_dec cmw w); [specialize (L1 ltac:(lia)); lia|lia]).
    assert (h <= cmh) by (destruct (Z_lt_le_dec cmh h); [specialize (L2 ltac:(lia)); lia|lia]).
    lia.
  - set (scale := min3 (int_truediv cmw w) (int_truediv cmh h) one) in *.
    destruct (mul_int_float_below w scale m e cmw Hw Hn ltac:(lia) ltac:(lia))
      as (nw & Ew & Hnw).
    { destruct Hn as [_ Hm]. destruct N1 as [_ Hm1].
      apply (fle_value m e m1 e1); (assumption || lia). }
    destruct (mul_int_float_below h scale m e cmh Hh Hn ltac:(lia) ltac:(lia))
      as (nh & Eh & Hnh).
    { destruct Hn as [_ Hm]. destruct N2 as [_ Hm2].
      apply (fle_value m e m2 e2); (assumption || lia). }
    destruct (mul_int_float_le w scale m e ltac:(lia) Hn ltac:(lia)) as (nw' & Ew' & Hnw').
    destruct (mul_int_float_le h scale m e ltac:(lia) Hn ltac:(lia)) as (nh' & Eh' & Hnh').
    rewrite Ew in Ew'. injection Ew' as <-. rewrite Eh in Eh'. injection Eh' as <-.
    rewrite Ew, Eh. cbn [mbind result_bind]. exists nw, nh.
    split; [reflexivity|]. lia.
Qed.




(** ** Pagination: [range], slices and chunks *)

Section Pagination.

Lemma ceil_div_spec a b :
  0 < b -> (ceil_div a b - 1) * b < a <= ceil_div a b * b.
Proof.
  intros Hb. unfold ceil_div.
  pose proof (Z.div_mod (a + b - 1) b ltac:(lia)).
  pose proof (Z.mod_pos_bound (a + b - 1) b Hb). nia.
Qed.

Lemma ceil_div_step a b : 0 < b -> 0 < a -> ceil_div a b = 1 + ceil_div (a - b) b.
Proof.
  intros Hb Ha. unfold ceil_div.
  replace (a + b - 1) with (a - b + b - 1 + 1 * b) by lia.
  rewrite Z.div_add by lia. lia.
Qed.

Lemma ceil_div_nonpos a b : 0 < b -> a <= 0 -> ceil_div a b <= 0.
Proof.
  intros Hb Ha. unfold ceil_div.
  assert ((a + b - 1) / b < 1); [|lia].
  apply Z.div_lt_upper_bound; lia.
Qed.

Lemma range_up_spec fuel : forall i stop step,
  0 < step -> stop - i <= Z.of_nat fuel ->
  range_up fuel i stop step
  = (fun k => i + Z.of_nat k * step) <$> seq 0 (Z.to_nat (ceil_div (stop - i) step)).
Proof.
  induction fuel as [|fuel IH]; intros i stop step Hstep Hfuel; simpl.
  - pose proof (ceil_div_nonpos (stop - i) step Hstep ltac:(lia)).
    replace (Z.to_nat _) with 0%nat by lia. reflexivity.
  - destruct (Z.ltb_spec i stop) as [Hlt|Hge].
    + rewrite (ceil_div_step (stop - i) step) by lia.
      pose proof (ceil_div_spec (stop - i - step) step Hstep).
      assert (0 <= ceil_div (stop - i - step) step) by nia.
      rewrite Z2Nat.inj_add by lia. change (Z.to_nat 1) with 1%nat.
      cbn [Nat.add seq fmap list_fmap]. f_equal; [lia|].
      rewrite IH by lia. rewrite <- fmap_S_seq, <- list_fmap_compose.
      replace (stop - (i + step)) with (stop - i - step) by lia.
      apply list_fmap_ext. intros _ k _. simpl. lia.
    + pose proof (ceil_div_nonpos (stop - i) step Hstep ltac:(lia)).
      replace (Z.to_nat _) with 0%nat by lia. reflexivity.
Qed.

Lemma range_pages n cap :
  0 < cap -> 0 <= n ->
  range 0 n cap = Ok ((fun k => Z.of_nat k * cap) <$> seq 0 (Z.to_nat (ceil_div n cap))).
Proof.
  intros Hc Hn. unfold range.
  destruct (Z.eqb_spec cap 0); [lia|]. destruct (Z.ltb_spec 0 cap); [|lia].
  rewrite range_up_spec by lia. rewrite Z.sub_0_r. reflexivity.
Qed.

Lemma slice_chunk {A} (l : list A) cap k :
  0 < cap ->
  slice l (Z.of_nat k * cap) (Z.of_nat k * cap + cap) = chunk (Z.to_nat cap) l k.
Proof.
  intros Hc. unfold slice, chunk, clamp_index, len.
  destruct (Z.ltb_spec (Z.of_nat k * cap) 0); [nia|].
  destruct (Z.ltb_spec (Z.of_nat k * cap + cap) 0); [nia|].
  set (n := length l).
  destruct (Z_le_gt_dec (Z.of_nat n) (Z.of_nat k * cap)) as [Hout|Hin].
  - rewrite !drop_ge by (unfold n in *; nia). rewrite !take_nil. reflexivity.
  - replace (Z.to_nat (Z.min (Z.of_nat k * cap) (Z.of_nat n))) with (k * Z.to_nat cap)%nat by nia.
    destruct (Z_le_gt_dec (Z.of_nat k * cap + cap) (Z.of_nat n)).
    + f_equal. lia.
    + assert (Ekc : Z.of_nat (k * Z.to_nat cap) = Z.of_nat k * cap) by nia.
      rewrite !take_ge.
      * reflexivity.
      * rewrite length_drop. subst n. lia.
      * rewrite length_drop. subst n. lia.
Qed.

Lemma chunk_S {A} c (l : list A) k : chunk c l (S k) = chunk c (drop c l) k.
Proof. unfold chunk. rewrite drop_drop. do 2 f_equal; lia. Qed.

Lemma concat_chunks {A} c p : forall l : list A,
  (length l <= p * c)%nat -> concat (chunk c l <$> seq 0 p) = l.
Proof.
  induction p as [|p IH]; intros l Hl.
  - destruct l; [reflexivity|simpl in Hl; lia].
  - cbn [seq fmap list_fmap concat]. rewrite <- fmap_S_seq, <- list_fmap_compose.
    rewrite (list_fmap_ext (chunk c l ∘ S) (chunk c (drop c l)) (seq 0 p))
      by (intros; apply chunk_S).
    rewrite IH by (rewrite length_drop; lia).
    unfold chunk. simpl. rewrite drop_0. apply take_drop.
Qed.

Lemma length_chunk {A} c (l : list A) k :
  length (chunk c l k) = (c `min` (length l - k * c))%nat.
Proof. unfold chunk. rewrite length_take, length_drop. reflexivity. Qed.

End Pagination.

(** ** The page composer *)

Ltac bind_ok H :=
  match type of H with
  | mbind _ ?m = Ok _ =>
      let E := fresh "E" in
      destruct m eqn:E; cbn [mbind result_bind] in H; [|discriminate H]
  end.

Section Composer.

Lemma page_size_px_eq : page_size_px = Ok (2229, 3254).
Proof. vm_compute. reflexivity. Qed.

Lemma bg_padding_eq : mul_int_float 2 SCALE_FACTOR ≫= int_ = Ok 8.
Proof. vm_compute. reflexivity. Qed.

Lemma default_padding_scale_eq :
  mul_int_float default_padding SCALE_FACTOR ≫= int_ = Ok 20.
Proof. vm_compute. reflexivity. Qed.

Lemma default_font_size_px_eq :
  mul_int_float default_font_size SCALE_FACTOR ≫= int_ = Ok 41.
Proof. vm_compute. reflexivity. Qed.

Lemma grid_cell_eq rows cols i :
  rows * cols <> 0 ->
  grid_cell rows cols i
  = Ok ((i mod (rows * cols)) / cols, (i mod (rows * cols)) mod cols).
Proof.
  intros Hcap. unfold grid_cell, mod_, floordiv.
  destruct (Z.eqb_spec (rows * cols) 0); [lia|]. cbn [mbind result_bind].
  destruct (Z.eqb_spec cols 0); [lia|]. reflexivity.
Qed.

Lemma place_image_placed env rows cols start padding font img_max page i path page' :
  place_image env rows cols start padding font img_max page i path = Ok page'
  <-> exists ops,
        placed env rows cols start padding font img_max i path ops /\
        page' = draws page ops.
Proof.
  destruct img_max as [cmw cmh]. unfold place_image. split.
  - intros H. bind_ok H. destruct (size a) as [w h] eqn:Es.
    bind_ok H. destruct a0 as [nw nh]. bind_ok H. bind_ok H.
    destruct a1 as [row col]. bind_ok H.
    destruct (textbbox _ _ _ _) as [[[b0 b1] b2] b3] eqn:Eb.
    bind_ok H. injection H as <-.
    eexists. split.
    + eapply (Placed _ _ _ _ _ _ _ _ _ _ a a0 (nw, nh) (row, col) a1 a2);
        rewrite ?Es; cbn [fst snd]; try eassumption. reflexivity.
    + unfold stamp, draws, draw. cbn [fst snd canvas_size drawn]. rewrite Eb.
      rewrite <- !app_assoc. reflexivity.
  - intros (ops & [src img [nw nh] [row col] ps bp Ho Hf Hr Hg Hp Hb ->] & ->).
    rewrite Ho. cbn [mbind result_bind]. destruct (size src) as [w h].
    cbn [fst snd] in *. rewrite Hf. cbn [mbind result_bind]. rewrite Hr.
    cbn [mbind result_bind]. rewrite Hg. cbn [mbind result_bind].
    rewrite Hp. cbn [mbind result_bind].
    unfold stamp, draws, draw. cbn [fst snd canvas_size drawn].
    destruct (textbbox _ _ _ _) as [[[b0 b1] b2] b3] eqn:Eb.
    rewrite Hb. cbn [mbind result_bind]. rewrite <- !app_assoc. reflexivity.
Qed.

Lemma draws_draws c ops1 ops2 : draws (draws c ops1) ops2 = draws c (ops1 ++ ops2).
Proof. unfold draws. cbn. rewrite app_assoc. reflexivity. Qed.

Lemma draws_nil c : draws c [] = c.
Proof. destruct c. unfold draws. cbn. rewrite app_nil_r. reflexivity. Qed.

Lemma place_images_placed env rows cols start padding font img_max paths :
  forall page i page',
  place_images env rows cols start padding font img_max page i paths = Ok page'
  <-> exists opss,
        placed_from env rows cols start padding font img_max i paths opss /\
        page' = draws page (concat opss).
Proof.
  induction paths as [|path paths IH]; intros page i page'; cbn [place_images].
  - split.
    + intros [= <-]. exists []. split; [constructor|]. cbn. rewrite draws_nil. reflexivity.
    + intros (opss & Hp & ->). inversion Hp; subst. cbn. rewrite draws_nil. reflexivity.
  - split.
    + intros H. bind_ok H. apply place_image_placed in E as (ops & Hp & ->).
      apply IH in H as (opss & Hps & ->).
      exists (ops :: opss). split; [constructor; assumption|].
      cbn [concat]. apply draws_draws.
    + intros (opss & Hp & ->). inversion Hp as [|? ? ? ops opss' H1 H2]; subst.
      assert (E : place_image env rows cols start padding font img_max page i path
                  = Ok (draws page ops)).
      { apply place_image_placed. eauto. }
      rewrite E. cbn [mbind result_bind]. apply IH.
      exists opss'. split; [assumption|]. cbn [concat]. rewrite draws_draws. reflexivity.
Qed.

Lemma placed_from_length env rows cols start padding font img_max i paths opss :
  placed_from env rows cols start padding font img_max i paths opss ->
  length opss = length paths.
Proof. induction 1; cbn; congruence. Qed.

Lemma placed_from_lookup env rows cols start padding font img_max i paths opss :
  placed_from env rows cols start padding font img_max i paths opss ->
  forall (j : nat) path, paths !! j = Some path ->
  exists ops, opss !! j = Some ops /\
    placed env rows cols start padding font img_max (i + Z.of_nat j) path ops.
Proof.
  induction 1 as [|i path0 paths ops opss H0 H IH]; intros j path Hj.
  - discriminate.
  - destruct j as [|j].
    + injection Hj as <-. exists ops. rewrite Z.add_0_r. auto.
    + destruct (IH j path Hj) as (ops' & ? & ?). exists ops'. split; [assumption|].
      replace (i + Z.of_nat (S j)) with (i + 1 + Z.of_nat j) by lia.
      assumption.
Qed.


Lemma placed_texts env rows cols start padding font img_max i path ops :
  placed env rows cols start padding font img_max i path ops ->
  omap text_of ops = [label (start + i + 1)] /\
  omap font_of ops = [font] /\
  length (omap paste_of ops) = 1%nat.
Proof.
  intros [src img ns cell ps bp _ _ _ _ _ _ ->]. unfold stamp.
  destruct (textbbox _ _ _ _) as [[[b0 b1] b2] b3]. cbn. auto.
Qed.

Lemma placed_from_texts env rows cols start padding font img_max i paths opss :
  placed_from env rows cols start padding font img_max i paths opss ->
  omap text_of (concat opss)
  = (fun j : nat => label (start + i + Z.of_nat j + 1)) <$> seq 0 (length paths).
Proof.
  induction 1 as [|i path paths ops opss H0 H IH].
  - reflexivity.
  - cbn [concat length seq fmap list_fmap]. rewrite omap_app, IH.
    destruct (placed_texts _ _ _ _ _ _ _ _ _ _ H0) as (-> & _). cbn [app].
    f_equal; [f_equal; lia|].
    rewrite <- fmap_S_seq, <- list_fmap_compose.
    apply list_fmap_ext. intros _ j _. cbn. f_equal. lia.
Qed.

Lemma placed_from_fonts env rows cols start padding font img_max i paths opss :
  placed_from env rows cols start padding font img_max i paths opss ->
  omap font_of (concat opss) = replicate (length paths) font.
Proof.
  induction 1 as [|i path paths ops opss H0 H IH].
  - reflexivity.
  - cbn [concat length replicate]. rewrite omap_app, IH.
    destruct (placed_texts _ _ _ _ _ _ _ _ _ _ H0) as (_ & -> & _). reflexivity.
Qed.

Lemma placed_from_pastes env rows cols start padding font img_max i paths opss :
  placed_from env rows cols start padding font img_max i paths opss ->
  length (omap paste_of (concat opss)) = length paths.
Proof.
  induction 1 as [|i path paths ops opss H0 H IH].
  - reflexivity.
  - cbn [concat length]. rewrite omap_app, length_app, IH.
    destruct (placed_texts _ _ _ _ _ _ _ _ _ _ H0) as (_ & _ & ->). reflexivity.
Qed.

(** *** Font resolution *)

Lemma first_font_found env px : forall candidates font,
  first_font env candidates px = Ok (Some font)
  <-> exists before name after,
        candidates = before ++ name :: after /\
        Forall (font_missing env px) before /\
        truetype env name px = Ok font.
Proof.
  induction candidates as [|c cs IH]; intros font; cbn [first_font].
  - split; [discriminate|]. intros (b & n & a & E & _). destruct b; discriminate.
  - destruct (truetype env c px) as [f|e] eqn:Et.
    + split.
      * intros [= <-]. exists [], c, cs. auto.
      * intros (b & n & a & E & Hb & Hn). destruct b as [|c' b].
        -- injection E as -> ->. congruence.
        -- injection E as -> ->. apply Forall_cons in Hb as [(e & He & _) _]. congruence.
    + destruct (is_IOError e) eqn:Eio.
      * rewrite IH. split.
        -- intros (b & n & a & -> & Hb & Hn). exists (c :: b), n, a.
           split; [reflexivity|]. split; [|assumption].
           constructor; [exists e; auto|assumption].
        -- intros (b & n & a & E & Hb & Hn). destruct b as [|c' b].
           ++ injection E as -> ->. congruence.
           ++ injection E as -> ->. apply Forall_cons in Hb as [_ Hb]. eauto 6.
      * split; [discriminate|].
        intros (b & n & a & E & Hb & Hn). destruct b as [|c' b].
        -- injection E as -> ->. congruence.
        -- injection E as -> ->. apply Forall_cons in Hb as [(e' & He & Hio) _]. congruence.
Qed.

Lemma first_font_none env px : forall candidates,
  Forall (font_missing env px) candidates -> first_font env candidates px = Ok None.
Proof.
  induction 1 as [|c cs (e & He & Hio) _ IH]; cbn [first_font]; [reflexivity|].
  rewrite He, Hio. assumption.
Qed.

(** *** The composer in terms of its two stages *)

Lemma combine_images_to_page_eq env paths rows cols start padding font_size :
  rows <> 0 -> cols <> 0 ->
  combine_images_to_page env paths rows cols start padding font_size
  = (font ← load_font env font_size;
     place_images env rows cols start padding font (2229 / cols, 3254 / rows)
       (new_white (2229, 3254)) 0 paths).
Proof.
  intros Hr Hc. unfold combine_images_to_page. rewrite page_size_px_eq.
  cbn [mbind result_bind]. unfold img_max_size, floordiv. cbn [fst snd].
  destruct (Z.eqb_spec cols 0); [lia|]. destruct (Z.eqb_spec rows 0); [lia|].
  reflexivity.
Qed.

Lemma combine_images_to_page_ok env paths rows cols start padding font_size c :
  rows <> 0 -> cols <> 0 ->
  combine_images_to_page env paths rows cols start padding font_size = Ok c
  <-> exists font opss,
        load_font env font_size = Ok font /\
        placed_from env rows cols start padding font (2229 / cols, 3254 / rows)
          0 paths opss /\
        c = draws (new_white (2229, 3254)) (concat opss).
Proof.
  intros Hr Hc. rewrite combine_images_to_page_eq by assumption. split.
  - intros H. bind_ok H. apply place_images_placed in H as (opss & Hp & ->). eauto.
  - intros (font & opss & -> & Hp & ->). cbn [mbind result_bind].
    apply place_images_placed. eauto.
Qed.



(** *** Labels *)

Lemma string_length_app (s t : string) :
  String.length (s +:+ t) = (String.length s + String.length t)%nat.
Proof.
  induction s as [|a s IH]; [reflexivity|].
  change (S (String.length (s +:+ t)) = S (String.length s + String.length t)).
  f_equal. exact IH.
Qed.

Lemma string_app_inj_r (c s t : string) : s +:+ c = t +:+ c -> s = t.
Proof.
  revert t. induction s as [|a s IH]; intros [|b t] H.
  - reflexivity.
  - apply (f_equal String.length) in H. rewrite !string_length_app in H.
    cbn in H. lia.
  - apply (f_equal String.length) in H. rewrite !string_length_app in H.
    cbn in H. lia.
  - change (String a (s +:+ c) = String b (t +:+ c)) in H.
    injection H as -> H. f_equal. auto.
Qed.

Lemma label_inj a b : label a = label b -> a = b.
Proof.
  unfold label. intros H. apply (inj (String.app "(")) in H.
  apply string_app_inj_r in H. apply (inj pretty) in H. exact H.
Qed.

Lemma placed_length env rows cols start padding font img_max i path ops :
  placed env rows cols start padding font img_max i path ops -> length ops = 3%nat.
Proof.
  intros [src img ns cell ps bp _ _ _ _ _ _ ->]. unfold stamp.
  destruct (textbbox _ _ _ _) as [[[b0 b1] b2] b3]. reflexivity.
Qed.

Lemma placed_from_split env rows cols start padding font img_max i paths opss :
  placed_from env rows cols start padding font img_max i paths opss ->
  forall (j : nat) path, paths !! j = Some path ->
  exists ops before after,
    placed env rows cols start padding font img_max (i + Z.of_nat j) path ops /\
    concat opss = before ++ ops ++ after /\
    length before = (3 * j)%nat.
Proof.
  induction 1 as [|i path0 paths ops opss H0 H IH]; intros j path Hj.
  - discriminate.
  - destruct j as [|j].
    + injection Hj as <-. exists ops, [], (concat opss). rewrite Z.add_0_r. auto.
    + destruct (IH j path Hj) as (ops' & before & after & Hp & E & Hlen).
      exists ops', (ops ++ before), after.
      replace (i + Z.of_nat (S j)) with (i + 1 + Z.of_nat j) by lia.
      split; [assumption|]. cbn [concat]. rewrite E, <- app_assoc.
      split; [reflexivity|].
      rewrite length_app, (placed_length _ _ _ _ _ _ _ _ _ _ H0). lia.
Qed.

End Composer.

(** ** The pagination driver *)

Section Driver.

Context (env : Env) (image_list : list Path) (rows cols : Z).
Context (Hcap : 0 < rows * cols).


Lemma content_size_eq :
  sub_float_int A4_WIDTH_PT (2 * MARGIN_PT) = Ok content_width /\
  sub_float_int A4_HEIGHT_PT (2 * MARGIN_PT) = Ok content_height.
Proof. split; reflexivity. Qed.

Lemma floordiv_start k :
  floordiv (Z.of_nat k * (rows * cols)) (rows * cols) = Ok (Z.of_nat k).
Proof.
  unfold floordiv. destruct (Z.eqb_spec (rows * cols) 0); [lia|].
  rewrite Z.div_mul by lia. reflexivity.
Qed.

Lemma add_page_eq k pdf fs :
  (page_body env image_list rows cols) (Z.of_nat k * (rows * cols)) pdf fs =
  match page_canvas env image_list rows cols k with
  | Raise e => (Raise e, fs)
  | Ok c =>
      match temp_dir fs with
      | None => (Raise (OSError "No such file or directory"), fs)
      | Some files =>
          match save_error env (page_name k) with
          | Some e => (Raise e, fs)
          | None =>
              (Ok (pdf ++ [page_of c]),
               {| temp_dir := Some (<[page_name k := PngFile c]> files);
                  output_pdf := output_pdf fs |})
          end
      end
  end.
Proof.
  unfold page_body, add_page, page_canvas. rewrite slice_chunk by assumption.
  unfold mbind at 1. unfold io_bind, lift.
  destruct (combine_images_to_page _ _ _ _ _ _ _) as [c|e]; [|reflexivity].
  unfold mbind at 1. unfold io_bind. rewrite floordiv_start.
  unfold mbind at 1. unfold io_bind, save. fold (page_name k).
  destruct (temp_dir fs) as [files|]; [|reflexivity].
  destruct (save_error env (page_name k)); [reflexivity|].
  unfold pdf_image. cbn [temp_dir mbind option_bind].
  rewrite lookup_insert_eq. reflexivity.
Qed.

(** The loop when nothing fails. *)
Lemma for_each_pages_ok (cv : nat -> Canvas) ks : forall pdf fs files,
  temp_dir fs = Some files ->
  (forall k, k ∈ ks ->
     page_canvas env image_list rows cols k = Ok (cv k) /\
     save_error env (page_name k) = None) ->
  exists files',
    for_each (starts (rows * cols) ks) (page_body env image_list rows cols) pdf fs
    = (Ok (pdf ++ (page_of ∘ cv <$> ks)),
       {| temp_dir := Some files'; output_pdf := output_pdf fs |}).
Proof.
  induction ks as [|k ks IH]; intros pdf fs files Hdir Hgood.
  - exists files. cbn [starts fmap list_fmap for_each]. unfold mret, io_ret.
    rewrite app_nil_r. destruct fs; cbn in *; subst; reflexivity.
  - cbn [starts fmap list_fmap for_each]. unfold mbind at 1. unfold io_bind.
    rewrite add_page_eq.
    destruct (Hgood k ltac:(left)) as [-> ->]. rewrite Hdir.
    destruct (IH (pdf ++ [page_of (cv k)])
                {| temp_dir := Some (<[page_name k := PngFile (cv k)]> files);
                   output_pdf := output_pdf fs |} _ eq_refl) as (files' & E);
      [intros; apply Hgood; right; assumption|].
    exists files'. unfold starts in E. rewrite E. cbn [output_pdf].
    rewrite <- app_assoc. reflexivity.
Qed.

(** The loop when it ends normally: every page was composed. *)
Lemma for_each_pages_inv ks : forall pdf fs pdf' fs',
  for_each (starts (rows * cols) ks) (page_body env image_list rows cols) pdf fs = (Ok pdf', fs') ->
  exists cs,
    Forall2 (fun k c => page_canvas env image_list rows cols k = Ok c) ks cs /\
    pdf' = pdf ++ (page_of <$> cs).
Proof.
  induction ks as [|k ks IH]; intros pdf fs pdf' fs' H.
  - injection H as <- <-. exists []. split; [constructor|]. cbn. rewrite app_nil_r. reflexivity.
  - cbn [starts fmap list_fmap for_each] in H. unfold mbind at 1 in H.
    unfold io_bind in H. rewrite add_page_eq in H.
    destruct (page_canvas env image_list rows cols k) as [c|e] eqn:Ec; [|discriminate].
    destruct (temp_dir fs) as [files|]; [|discriminate].
    destruct (save_error env (page_name k)); [discriminate|].
    apply IH in H as (cs & Hcs & ->). exists (c :: cs).
    split; [constructor; assumption|]. cbn. rewrite <- app_assoc. reflexivity.
Qed.

(** Whatever the outcome, the loop leaves the document alone, deletes
    nothing, adds page files only, and the file of a page is there once this
    page and the pages before it went through. *)
Lemma for_each_pages_frame ks : forall pdf fs files r fs',
  temp_dir fs = Some files ->
  for_each (starts (rows * cols) ks) (page_body env image_list rows cols) pdf fs = (r, fs') ->
  exists files',
    temp_dir fs' = Some files' /\
    output_pdf fs' = output_pdf fs /\
    (forall name, is_Some (files !! name) -> is_Some (files' !! name)) /\
    (forall p k, ks !! p = Some k ->
       (forall q j, (q <= p)%nat -> ks !! q = Some j ->
                    page_good env image_list rows cols j) ->
       is_Some (files' !! page_name k)) /\
    (forall name, is_Some (files' !! name) ->
       is_Some (files !! name) \/ exists k, name = page_name k).
Proof.
  induction ks as [|k ks IH]; intros pdf fs files r fs' Hdir H.
  - injection H as <- <-. exists files. repeat split; auto. intros p k Hp. discriminate.
  - cbn [starts fmap list_fmap for_each] in H. unfold mbind at 1 in H.
    unfold io_bind in H. rewrite add_page_eq in H.
    assert (Hstuck : (r, fs') = (r, fs) ->
                     ~ page_good env image_list rows cols k ->
                     exists files', temp_dir fs' = Some files' /\
                       output_pdf fs' = output_pdf fs /\
                       (forall name, is_Some (files !! name) -> is_Some (files' !! name)) /\
                       (forall p k0, (k :: ks) !! p = Some k0 ->
                          (forall q j, (q <= p)%nat -> (k :: ks) !! q = Some j ->
                                       page_good env image_list rows cols j) ->
                          is_Some (files' !! page_name k0)) /\
                       (forall name, is_Some (files' !! name) ->
                          is_Some (files !! name) \/ exists k, name = page_name k)).
    { intros [= ->] Hbad. exists files. repeat split; auto.
      intros p k0 _ Hall. destruct Hbad. apply (Hall 0%nat k); [lia|reflexivity]. }
    unfold page_good in Hstuck.
    destruct (page_canvas env image_list rows cols k) as [c|e] eqn:Ec.
    2:{ injection H as <- <-. apply Hstuck; [reflexivity|]. cbn. intros [? _]. discriminate. }
    rewrite Hdir in H.
    destruct (save_error env (page_name k)) eqn:Es.
    { injection H as <- <-. apply Hstuck; [reflexivity|]. intros [_ ?]. discriminate. }
    clear Hstuck.
    eapply IH in H as (files' & Hd' & Ho' & Hkeep & Hpages & Hnames); [|reflexivity].
    exists files'. split; [assumption|]. split; [assumption|].
    split; [|split].
    + intros name Hn. apply Hkeep.
      destruct (decide (page_name k = name)) as [<-|Hne].
      * rewrite lookup_insert_eq. eauto.
      * rewrite lookup_insert_ne by assumption. assumption.
    + intros [|p] k0 Hp Hall.
      * injection Hp as <-. apply Hkeep. rewrite lookup_insert_eq. eauto.
      * apply (Hpages p k0 Hp). intros q j Hq Hj.
        apply (Hall (S q) j); [lia|assumption].
    + intros name Hn. destruct (Hnames name Hn) as [Hold|Hpage]; [|right; assumption].
      destruct (decide (page_name k = name)) as [<-|Hne]; [right; eauto|].
      rewrite lookup_insert_ne in Hold by assumption. left. assumption.
Qed.

Lemma ends_with_app suffix s : ends_with suffix (s +:+ suffix) = true.
Proof.
  induction s as [|a s IH].
  - change ("" +:+ suffix) with suffix.
    destruct suffix; cbn [ends_with]; rewrite String.eqb_refl; reflexivity.
  - change (String a s +:+ suffix) with (String a (s +:+ suffix)).
    cbn [ends_with]. rewrite IH. destruct (String.eqb _ _); reflexivity.
Qed.

Lemma is_png_page_name k : is_png (page_name k) = true.
Proof.
  unfold is_png, page_name, page_file_name.
  change ("page_" +:+ pretty (Z.of_nat k + 1) +:+ ".png")
    with (("page_" +:+ pretty (Z.of_nat k + 1)) +:+ ".png").
  apply ends_with_app.
Qed.

End Driver.

(** ** The run as a whole *)

Lemma create_pdf_from_images_eq env image_list rows cols fs :
  0 < rows * cols ->
  create_pdf_from_images env image_list rows cols fs =
  match mkdir env fs with
  | (Raise _, fs1) => (Ok (), fs1)
  | (Ok _, fs1) =>
      match for_each (starts (rows * cols)
                        (seq 0 (Z.to_nat (ceil_div (len image_list) (rows * cols)))))
              (page_body env image_list rows cols) [] fs1 with
      | (Raise e, fs2) => (Raise e, fs2)
      | (Ok pdf, fs2) =>
          match pdf_output env pdf fs2 with
          | (Raise e, fs3) => (Raise e, fs3)
          | (Ok _, fs3) =>
              match unlink_pngs fs3 with
              | (Raise e, fs4) => (Raise e, fs4)
              | (Ok _, fs4) => rmdir fs4
              end
          end
      end
  end.
Proof.
  intros Hcap. unfold create_pdf_from_images.
  destruct content_size_eq as [-> ->].
  unfold mbind at 1. unfold io_bind, lift. unfold mbind at 1. unfold io_bind.
  destruct (mkdir env fs) as [[[]|e] fs1]; [|reflexivity].
  unfold mbind at 1. unfold io_bind.
  rewrite range_pages by (unfold len; lia). reflexivity.
Qed.

Lemma mkdir_cases env fs r fs1 :
  mkdir env fs = (r, fs1) ->
  (exists e, r = Raise e /\ fs1 = fs /\ temp_dir fs = None /\
             mkdir_error env = Some e) \/
  (r = Ok () /\ output_pdf fs1 = output_pdf fs /\
   temp_dir fs1 = Some (default ∅ (temp_dir fs))).
Proof.
  unfold mkdir. destruct (temp_dir fs) as [files|] eqn:Ed.
  - intros [= <- <-]. right. rewrite Ed. auto.
  - destruct (mkdir_error env) as [e|] eqn:Ee; intros [= <- <-].
    + left. eauto.
    + right. auto.
Qed.

(** A run that wrote a document it did not find there composed every page. *)
Lemma written_document env image_list rows cols fs r fs' pdf :
  0 < rows * cols ->
  output_pdf fs = None ->
  create_pdf_from_images env image_list rows cols fs = (r, fs') ->
  output_pdf fs' = Some pdf ->
  exists cs,
    Forall2 (fun k c => page_canvas env image_list rows cols k = Ok c)
      (seq 0 (Z.to_nat (ceil_div (len image_list) (rows * cols)))) cs /\
    pdf = page_of <$> cs.
Proof.
  intros Hcap Hnone Hrun Hpdf.
  rewrite create_pdf_from_images_eq in Hrun by assumption.
  destruct (mkdir env fs) as [r1 fs1] eqn:Emk.
  apply mkdir_cases in Emk as [(e & -> & -> & _ & _)|(-> & Ho1 & Hd1)].
  { injection Hrun as <- <-. congruence. }
  destruct (for_each _ _ _ fs1) as [[pdf'|e] fs2] eqn:Eloop.
  2:{ injection Hrun as <- <-.
      eapply for_each_pages_frame in Eloop as (? & _ & Ho2 & _); [|assumption|eassumption].
      congruence. }
  pose proof Eloop as Eloop'.
  eapply for_each_pages_frame in Eloop' as (files2 & Hd2 & Ho2 & _); [|assumption|eassumption].
  apply for_each_pages_inv in Eloop as (cs & Hcs & ->); [|assumption].
  exists cs. split; [assumption|].
  unfold pdf_output in Hrun. destruct (output_error env).
  { injection Hrun as <- <-. congruence. }
  unfold unlink_pngs in Hrun. cbn [temp_dir output_pdf] in Hrun. rewrite Hd2 in Hrun.
  unfold rmdir in Hrun. cbn [temp_dir output_pdf] in Hrun.
  destruct (bool_decide _); injection Hrun as <- <-; cbn in Hpdf; congruence.
Qed.

(** A run in which nothing fails writes the document, one page per chunk. *)
Lemma document_written env image_list rows cols fs (cv : nat -> Canvas) :
  0 < rows * cols ->
  mkdir_error env = None -> output_error env = None ->
  (forall k, (k < Z.to_nat (ceil_div (len image_list) (rows * cols)))%nat ->
     page_canvas env image_list rows cols k = Ok (cv k) /\
     save_error env (page_name k) = None) ->
  exists r fs',
    create_pdf_from_images env image_list rows cols fs = (r, fs') /\
    output_pdf fs' =
      Some (page_of ∘ cv <$> seq 0 (Z.to_nat (ceil_div (len image_list) (rows * cols)))).
Proof.
  intros Hcap Hmk Hout Hgood.
  rewrite create_pdf_from_images_eq by assumption.
  destruct (mkdir env fs) as [r1 fs1] eqn:Emk.
  apply mkdir_cases in Emk as [(e & _ & _ & _ & He)|(-> & Ho1 & Hd1)]; [congruence|].
  destruct (for_each_pages_ok env image_list rows cols Hcap cv
              (seq 0 (Z.to_nat (ceil_div (len image_list) (rows * cols))))
              [] fs1 _ Hd1) as (files' & ->).
  { intros k Hk. apply Hgood. apply elem_of_seq in Hk. lia. }
  unfold pdf_output. rewrite Hout. unfold unlink_pngs. cbn [temp_dir output_pdf].
  unfold rmdir. cbn [temp_dir output_pdf].
  destruct (bool_decide _); eexists _, _; (split; [reflexivity|]); reflexivity.
Qed.

(** The end-to-end scenario of the spec (section 8): seven images on a
    2 x 2 grid give two pages, the first with the ordinals 1 to 4 in the
    four cells, the second with 5 to 7 in its first three cells; the run ends
    normally and removes its directory. *)
Example seven_images_on_2x2 :
  demo_run.1 = Ok () /\
  temp_dir demo_run.2 = None /\
  (fmap (M := list) (labels ∘ page_content) <$> output_pdf demo_run.2)
  = Some [["(1)"; "(2)"; "(3)"; "(4)"]; ["(5)"; "(6)"; "(7)"]] /\
  (fmap (M := list) (fun page => snd <$> pastes (page_content page))
     <$> output_pdf demo_run.2)
  = Some [[(257, 413); (1371, 413); (257, 2040); (1371, 2040)];
          [(257, 413); (1371, 413); (257, 2040)]].
Proof. vm_compute. repeat split; reflexivity. Qed.

(** ** Claims *)

Lemma pages_exact_multiple n cap q :
  0 < cap -> n = q * cap -> ceil_div n cap = q.
Proof.
  intros Hc ->. pose proof (ceil_div_spec (q * cap) cap Hc). nia.
Qed.

Lemma pages_one_extra n cap q :
  0 < cap -> n = q * cap + 1 -> ceil_div n cap = q + 1.
Proof.
  intros Hc ->. pose proof (ceil_div_spec (q * cap + 1) cap Hc). nia.
Qed.

Lemma chunk_nonempty {A} c (l : list A) k :
  (0 < c)%nat -> (k * c < length l)%nat ->
  chunk c l k <> [] /\ (length (chunk c l k) <= c)%nat.
Proof.
  intros Hc Hk. pose proof (length_chunk c l k) as Hlen. split; [|lia].
  intros E. rewrite E in Hlen. cbn in Hlen. lia.
Qed.

Lemma chunk_last {A} c (l : list A) q x :
  length l = S (q * c) -> (0 < c)%nat -> last l = Some x -> chunk c l q = [x].
Proof.
  intros Hlen Hc Hlast. unfold chunk.
  rewrite take_ge by (rewrite length_drop; lia).
  rewrite <- (take_drop (q * c) l) in Hlast.
  destruct (drop (q * c) l) as [|y [|z t]] eqn:Ed.
  - apply (f_equal length) in Ed. rewrite length_drop in Ed. cbn in Ed. lia.
  - rewrite last_snoc in Hlast. congruence.
  - apply (f_equal length) in Ed. rewrite length_drop in Ed. cbn in Ed. lia.
Qed.

(** C1. For a non-empty image list and a grid of at least one row and one
    column, the driver's loop runs once per page, ceil(count / capacity)
    times: the number of pages is the least [p] with [p * capacity >= count];
    iteration [k] receives the contiguous chunk [k] of [capacity] images in
    the original order; no chunk is empty, so a count that is a multiple of
    the capacity gives exactly count / capacity full pages, and one image
    more gives one more page holding that image alone.  When no page fails
    the document written has exactly these pages, and every document the
    driver writes has them. *)
Theorem pagination_pages env image_list rows cols :
  1 <= rows -> 1 <= cols -> image_list <> [] ->
  let capacity := rows * cols in
  let pages := Z.to_nat (ceil_div (len image_list) capacity) in
  ((Z.of_nat pages - 1) * capacity < len image_list <= Z.of_nat pages * capacity) /\
  range 0 (len image_list) capacity = Ok (starts capacity (seq 0 pages)) /\
  (forall k : nat,
     slice image_list (Z.of_nat k * capacity) (Z.of_nat k * capacity + capacity)
     = chunk (Z.to_nat capacity) image_list k) /\
  concat (chunk (Z.to_nat capacity) image_list <$> seq 0 pages) = image_list /\
  (forall k, (k < pages)%nat ->
     chunk (Z.to_nat capacity) image_list k <> [] /\
     len (chunk (Z.to_nat capacity) image_list k) <= capacity) /\
  (forall q, len image_list = q * capacity ->
     Z.of_nat pages = q /\
     forall k, (k < pages)%nat ->
       len (chunk (Z.to_nat capacity) image_list k) = capacity) /\
  (forall q x, len image_list = q * capacity + 1 -> last image_list = Some x ->
     Z.of_nat pages = q + 1 /\
     chunk (Z.to_nat capacity) image_list (Z.to_nat q) = [x]) /\
  (forall fs (cv : nat -> Canvas),
     mkdir_error env = None -> output_error env = None ->
     (forall k, (k < pages)%nat ->
        page_canvas env image_list rows cols k = Ok (cv k) /\
        save_error env (page_name k) = None) ->
     exists r fs',
       create_pdf_from_images env image_list rows cols fs = (r, fs') /\
       output_pdf fs' = Some (page_of ∘ cv <$> seq 0 pages)) /\
  (forall fs r fs' pdf,
     output_pdf fs = None ->
     create_pdf_from_images env image_list rows cols fs = (r, fs') ->
     output_pdf fs' = Some pdf ->
     length pdf = pages /\
     forall k page, pdf !! k = Some page ->
       page_canvas env image_list rows cols k = Ok (page_content page)).
Proof.
  intros Hr Hc Hne capacity pages.
  assert (Hcap : 0 < capacity) by (unfold capacity; nia).
  assert (Hn : 0 < len image_list).
  { unfold len. destruct image_list; [congruence|cbn; lia]. }
  pose proof (ceil_div_spec (len image_list) capacity Hcap) as Hceil.
  assert (Hp : Z.of_nat pages = ceil_div (len image_list) capacity).
  { unfold pages. rewrite Z2Nat.id; [reflexivity|nia]. }
  assert (Hin : forall k, (k < pages)%nat ->
                          (k * Z.to_nat capacity < length image_list)%nat).
  { intros k Hk. unfold len in *. nia. }
  split; [rewrite Hp; exact Hceil|].
  split; [apply range_pages; lia|].
  split; [intros k; apply slice_chunk; assumption|].
  split; [apply concat_chunks; unfold len in *; nia|].
  split.
  { intros k Hk.
    destruct (chunk_nonempty (Z.to_nat capacity) image_list k ltac:(lia) (Hin k Hk)).
    split; [assumption|unfold len; lia]. }
  split.
  { intros q Hq. rewrite Hp.
    rewrite (pages_exact_multiple _ _ q Hcap Hq) in *. split; [reflexivity|].
    intros k Hk. unfold len in *. rewrite length_chunk. nia. }
  split.
  { intros q x Hq Hlast. rewrite Hp.
    rewrite (pages_one_extra _ _ q Hcap Hq) in *. split; [reflexivity|].
    apply chunk_last; [unfold len in *; nia|lia|assumption]. }
  split.
  { intros fs cv Hmk Hout Hgood. apply document_written; assumption. }
  intros fs r fs' pdf Hnone Hrun Hpdf.
  destruct (written_document _ _ _ _ _ _ _ _ Hcap Hnone Hrun Hpdf) as (cs & Hcs & ->).
  fold capacity pages in Hcs. split.
  - rewrite length_fmap, <- (Forall2_length _ _ _ Hcs), length_seq. reflexivity.
  - intros k page Hk. rewrite list_lookup_fmap in Hk.
    destruct (cs !! k) as [c|] eqn:Ec; [|discriminate]. injection Hk as <-.
    destruct (Forall2_lookup_r _ _ _ _ _ Hcs Ec) as (k' & Hk' & Hok).
    apply lookup_seq in Hk' as [-> _]. exact Hok.
Qed.

(** An instance: the seven images of the scenario on a 2 x 2 grid are
    handed over in two iterations, starting at 0 and at 4. *)
Lemma pagination_pages_witness :
  1 <= 2 /\ 1 <= 2 /\ seven_images <> [] /\
  range 0 (len seven_images) (2 * 2) = Ok [0; 4].
Proof.
  split; [lia|]. split; [lia|]. split; [discriminate|].
  exact (proj1 (proj2 (pagination_pages demo_env seven_images 2 2
                         ltac:(lia) ltac:(lia) ltac:(discriminate)))).
Defined.

(** The labels of a page, from the offset it was given. *)
Lemma combine_images_to_page_labels env paths rows cols start padding font_size c :
  rows <> 0 -> cols <> 0 ->
  combine_images_to_page env paths rows cols start padding font_size = Ok c ->
  labels c = (fun i : nat => label (start + Z.of_nat i + 1)) <$> seq 0 (length paths).
Proof.
  intros Hr Hc H.
  apply combine_images_to_page_ok in H as (font & opss & _ & Hp & ->); try assumption.
  unfold labels, draws, new_white. cbn [drawn app].
  rewrite (placed_from_texts _ _ _ _ _ _ _ _ _ _ Hp).
  apply list_fmap_ext. intros _ j _. f_equal. lia.
Qed.

Lemma numbered_app (s : Z) (n1 n2 : nat) :
  (fun i : nat => label (s + Z.of_nat i + 1)) <$> seq 0 (n1 + n2)
  = ((fun i : nat => label (s + Z.of_nat i + 1)) <$> seq 0 n1)
    ++ ((fun i : nat => label (s + Z.of_nat n1 + Z.of_nat i + 1)) <$> seq 0 n2).
Proof.
  rewrite seq_app, fmap_app. f_equal.
  replace (0 + n1)%nat with (n1 + 0)%nat by lia.
  rewrite <- fmap_add_seq, <- list_fmap_compose.
  apply list_fmap_ext. intros _ j _. cbn. f_equal. lia.
Qed.

Lemma numbered_chunks {A} (c p : nat) : forall (l : list A) (s : Z),
  (0 < c)%nat -> (length l <= p * c)%nat ->
  concat ((fun k : nat =>
             (fun i : nat => label (s + Z.of_nat k * Z.of_nat c + Z.of_nat i + 1))
               <$> seq 0 (length (chunk c l k))) <$> seq 0 p)
  = (fun j : nat => label (s + Z.of_nat j + 1)) <$> seq 0 (length l).
Proof.
  induction p as [|p IH]; intros l s Hc Hl.
  - destruct l; [reflexivity|cbn in Hl; lia].
  - cbn [seq fmap list_fmap concat]. rewrite <- fmap_S_seq, <- list_fmap_compose.
    rewrite (list_fmap_ext _
               (fun k : nat =>
                  (fun i : nat =>
                     label (s + Z.of_nat c + Z.of_nat k * Z.of_nat c + Z.of_nat i + 1))
                    <$> seq 0 (length (chunk c (drop c l) k))) (seq 0 p)).
    2:{ intros _ k _. cbn. rewrite chunk_S.
        apply list_fmap_ext. intros _ i _. f_equal. lia. }
    rewrite IH by (rewrite ?length_drop; lia).
    rewrite <- (take_drop c l) at 3. rewrite length_app, numbered_app.
    unfold chunk at 1. cbn [Nat.mul]. rewrite drop_0. f_equal.
    + apply list_fmap_ext. intros _ i _. f_equal. lia.
    + destruct (drop c l) as [|y t] eqn:Ed; [reflexivity|].
      assert (length (take c l) = c).
      { rewrite length_take. apply (f_equal length) in Ed.
        rewrite length_drop in Ed. cbn in Ed. lia. }
      apply list_fmap_ext. intros _ i _. f_equal. lia.
Qed.

Lemma chunk_lookup {A} (c : nat) (l : list A) (j : nat) x :
  (0 < c)%nat -> l !! j = Some x -> chunk c l (j / c) !! (j mod c)%nat = Some x.
Proof.
  intros Hc Hj. unfold chunk.
  rewrite lookup_take_lt by (apply Nat.mod_upper_bound; lia).
  rewrite lookup_drop. rewrite <- Hj. f_equal.
  pose proof (Nat.div_mod_eq j c). lia.
Qed.

(** *** The rendering of a number *)

Lemma string_app_assoc (s t u : string) : (s +:+ t) +:+ u = s +:+ (t +:+ u).
Proof.
  induction s as [|a s IH]; [reflexivity|].
  change (String a ((s +:+ t) +:+ u) = String a (s +:+ (t +:+ u))).
  f_equal. exact IH.
Qed.

Lemma pretty_N_go_app x : forall s, pretty_N_go x s = pretty_N_go x "" +:+ s.
Proof.
  induction (N.lt_wf_0 x) as [x _ IH]. intros s.
  destruct (N.eq_dec x 0%N) as [->|Hx]; [reflexivity|].
  rewrite (pretty_N_go_step x s), (pretty_N_go_step x "") by lia.
  rewrite (IH (x `div` 10)%N) by (apply N.div_lt; lia).
  rewrite (IH (x `div` 10)%N ltac:(apply N.div_lt; lia)
             (String (pretty_N_char (x `mod` 10)) "")).
  rewrite string_app_assoc. reflexivity.
Qed.

Lemma pretty_N_char_digit x : (x < 10)%N -> pretty_N_char x = digit (Z.of_N x).
Proof.
  intros Hx.
  assert (x = 0 \/ x = 1 \/ x = 2 \/ x = 3 \/ x = 4 \/ x = 5 \/ x = 6 \/ x = 7
          \/ x = 8 \/ x = 9)%N as H by lia.
  repeat (destruct H as [->|H]; [reflexivity|]). subst x. reflexivity.
Qed.

Lemma pretty_N_step x :
  pretty x = (if (x <? 10)%N then "" else pretty (x `div` 10)%N)
               +:+ String (digit (Z.of_N (x `mod` 10))) "".
Proof.
  unfold pretty, pretty_N.
  destruct (decide (x = 0%N)) as [->|Hx]; [reflexivity|].
  rewrite pretty_N_go_step by lia.
  rewrite pretty_N_char_digit by (apply N.mod_lt; lia).
  destruct (N.ltb_spec x 10) as [Hlt|Hge].
  - rewrite N.div_small by assumption. reflexivity.
  - destruct (decide (x `div` 10 = 0)%N) as [E|_].
    { apply N.div_small_iff in E; lia. }
    apply pretty_N_go_app.
Qed.

Lemma pretty_Z_N n : 0 <= n -> pretty n = pretty (Z.to_N n).
Proof. destruct n as [|p|p]; [reflexivity|reflexivity|lia]. Qed.

Lemma pretty_Z_step n :
  0 <= n ->
  pretty n = (if n <? 10 then "" else pretty (n / 10))
               +:+ String (digit (n mod 10)) "".
Proof.
  intros Hn. rewrite (pretty_Z_N n Hn), pretty_N_step.
  assert (E10 : (Z.to_N n `div` 10)%N = Z.to_N (n / 10)).
  { rewrite Z2N.inj_div by lia. reflexivity. }
  assert (Em : Z.of_N (Z.to_N n `mod` 10) = n mod 10).
  { rewrite N2Z.inj_mod, Z2N.id by lia. reflexivity. }
  rewrite Em.
  destruct (N.ltb_spec (Z.to_N n) 10), (Z.ltb_spec n 10); try lia; [reflexivity|].
  rewrite E10, <- pretty_Z_N by (apply Z.div_pos; lia). reflexivity.
Qed.

Lemma decimal_go_pretty fuel : forall n,
  0 <= n < 2 ^ Z.of_nat (S fuel) -> decimal_go (S fuel) n = pretty n.
Proof.
  induction fuel as [|fuel IH]; intros n Hn.
  - rewrite pretty_Z_step by lia. change (2 ^ Z.of_nat 1) with 2 in Hn.
    cbn [decimal_go]. destruct (Z.ltb_spec n 10); [reflexivity|lia].
  - rewrite pretty_Z_step by lia.
    change (decimal_go (S (S fuel)) n)
      with ((if n <? 10 then "" else decimal_go (S fuel) (n / 10))
              +:+ String (digit (n mod 10)) "").
    destruct (Z.ltb_spec n 10); [reflexivity|].
    rewrite IH; [reflexivity|].
    split; [apply Z.div_pos; lia|]. apply Z.div_lt_upper_bound; [lia|].
    replace (Z.of_nat (S (S fuel))) with (Z.of_nat (S fuel) + 1) in Hn by lia.
    rewrite Z.pow_add_r in Hn by lia. lia.
Qed.

Lemma decimal_pretty n : 0 <= n -> decimal n = pretty n.
Proof.
  intros Hn. unfold decimal. apply decimal_go_pretty.
  split; [assumption|]. rewrite Nat2Z.inj_succ, Z2Nat.id by apply Z.log2_nonneg.
  destruct (Z.eq_dec n 0) as [->|Hne]; [reflexivity|].
  apply Z.log2_spec. lia.
Qed.

(** The f-string of line 128 writes the ordinal as the spec words it. *)
Lemma label_ordinal_text n : 0 <= n -> label n = ordinal_text n.
Proof.
  intros Hn. unfold label, ordinal_text. rewrite decimal_pretty by assumption.
  reflexivity.
Qed.

Lemma ordinal_text_inj a b :
  0 <= a -> 0 <= b -> ordinal_text a = ordinal_text b -> a = b.
Proof.
  intros Ha Hb H. rewrite <- !label_ordinal_text in H by assumption.
  apply label_inj. exact H.
Qed.

(** A run that left a document other than the one it found composed every
    page of it. *)
Lemma rewritten_document env image_list rows cols fs r fs' pdf :
  0 < rows * cols ->
  create_pdf_from_images env image_list rows cols fs = (r, fs') ->
  output_pdf fs' = Some pdf -> output_pdf fs <> Some pdf ->
  exists cs,
    Forall2 (fun k c => page_canvas env image_list rows cols k = Ok c)
      (seq 0 (Z.to_nat (ceil_div (len image_list) (rows * cols)))) cs /\
    pdf = page_of <$> cs.
Proof.
  intros Hcap Hrun Hpdf Hnew.
  rewrite create_pdf_from_images_eq in Hrun by assumption.
  destruct (mkdir env fs) as [r1 fs1] eqn:Emk.
  apply mkdir_cases in Emk as [(e & -> & -> & _ & _)|(-> & Ho1 & Hd1)].
  { injection Hrun as <- <-. congruence. }
  destruct (for_each _ _ _ fs1) as [[pdf'|e] fs2] eqn:Eloop.
  2:{ injection Hrun as <- <-.
      eapply for_each_pages_frame in Eloop as (? & _ & Ho2 & _); [|assumption|eassumption].
      congruence. }
  pose proof Eloop as Eloop'.
  eapply for_each_pages_frame in Eloop' as (files2 & Hd2 & Ho2 & _); [|assumption|eassumption].
  apply for_each_pages_inv in Eloop as (cs & Hcs & ->); [|assumption].
  exists cs. split; [assumption|].
  unfold pdf_output in Hrun. destruct (output_error env).
  { injection Hrun as <- <-. congruence. }
  unfold unlink_pngs in Hrun. cbn [temp_dir output_pdf] in Hrun. rewrite Hd2 in Hrun.
  unfold rmdir in Hrun. cbn [temp_dir output_pdf] in Hrun.
  destruct (bool_decide _); injection Hrun as <- <-; cbn in Hpdf; congruence.
Qed.

(** The numbering of the pages made of the canvases of all the chunks. *)
Lemma canvases_numbered env image_list rows cols cs :
  1 <= rows -> 1 <= cols ->
  Forall2 (fun k c => page_canvas env image_list rows cols k = Ok c)
    (seq 0 (Z.to_nat (ceil_div (len image_list) (rows * cols)))) cs ->
  let capacity := rows * cols in
  let c := Z.to_nat capacity in
  let pdf := page_of <$> cs in
  concat (labels ∘ page_content <$> pdf)
  = (fun j : nat => label (Z.of_nat j + 1)) <$> seq 0 (length image_list) /\
  (forall k page, pdf !! k = Some page ->
     labels (page_content page)
     = (fun i : nat => label (Z.of_nat k * capacity + Z.of_nat i + 1))
         <$> seq 0 (length (chunk c image_list k)) /\
     head (labels (page_content page)) = Some (label (Z.of_nat k * capacity + 1))) /\
  (forall j path, image_list !! j = Some path ->
     exists page font ops before after,
       pdf !! (j / c)%nat = Some page /\
       placed env rows cols (Z.of_nat (j / c) * capacity) default_padding font
         (2229 / cols, 3254 / rows) (Z.of_nat (j mod c)) path ops /\
       omap text_of ops = [label (Z.of_nat j + 1)] /\
       drawn (page_content page) = before ++ ops ++ after /\
       length before = (3 * (j mod c))%nat).
Proof.
  intros Hr Hc Hcs capacity c pdf. unfold pdf. clear pdf.
  assert (Hcap : 0 < capacity) by (unfold capacity; nia).
  assert (Hcc : Z.of_nat c = capacity) by (unfold c; lia).
  fold capacity in Hcs.
  set (pages := Z.to_nat (ceil_div (len image_list) capacity)) in *.
  pose proof (ceil_div_spec (len image_list) capacity Hcap) as Hceil.
  assert (Hpages : (length image_list <= pages * c)%nat).
  { unfold pages, len in *. nia. }
  assert (Hlab : forall k cv, cs !! k = Some cv ->
            (k < pages)%nat /\
            page_canvas env image_list rows cols k = Ok cv /\
            labels cv = (fun i : nat => label (Z.of_nat k * capacity + Z.of_nat i + 1))
                          <$> seq 0 (length (chunk c image_list k))).
  { intros k cv Hk.
    destruct (Forall2_lookup_r _ _ _ _ _ Hcs Hk) as (k' & Hk' & Hok).
    apply lookup_seq in Hk' as [-> Hlt]. split; [assumption|]. split; [assumption|].
    apply combine_images_to_page_labels in Hok; [exact Hok|lia|lia]. }
  split; [|split].
  - rewrite <- list_fmap_compose.
    transitivity ((fun j : nat => label (0 + Z.of_nat j + 1))
                    <$> seq 0 (length image_list));
      [|apply list_fmap_ext; intros _ j _; f_equal; lia].
    rewrite <- (numbered_chunks c pages image_list 0) by (assumption || lia).
    f_equal. apply list_eq. intros k. rewrite !list_lookup_fmap.
    destruct (cs !! k) as [cv|] eqn:Ek.
    + destruct (Hlab k cv Ek) as (Hlt & _ & E).
      rewrite lookup_seq_lt by assumption.
      unfold compose. cbn [fmap option_fmap option_map page_of page_content].
      rewrite E. f_equal.
      apply list_fmap_ext. intros _ i _. f_equal. lia.
    + rewrite lookup_seq_ge; [reflexivity|].
      apply lookup_ge_None in Ek. rewrite <- (Forall2_length _ _ _ Hcs) in Ek.
      rewrite length_seq in Ek. lia.
  - intros k page Hk. rewrite list_lookup_fmap in Hk.
    destruct (cs !! k) as [cv|] eqn:Ek; [|discriminate]. injection Hk as <-.
    destruct (Hlab k cv Ek) as (Hlt & _ & E). cbn [page_of page_content].
    split; [exact E|]. rewrite E.
    assert (Hin : (k * c < length image_list)%nat).
    { unfold pages, len in *. nia. }
    pose proof (length_chunk c image_list k) as Hlen.
    destruct (length (chunk c image_list k)) as [|n]; [lia|].
    cbn. do 2 f_equal. lia.
  - intros j path Hj.
    assert (Hjlt : (j < length image_list)%nat) by (apply lookup_lt_Some in Hj; lia).
    assert (Hc0 : (0 < c)%nat) by lia.
    pose proof (Nat.div_mod_eq j c) as Hdm.
    pose proof (Nat.mod_upper_bound j c ltac:(lia)) as Hmod.
    assert (Hk : (j / c < pages)%nat) by nia.
    destruct (Forall2_lookup_l _ _ _ (j / c)%nat (j / c)%nat Hcs) as (cv & Ecv & Hok).
    { apply lookup_seq_lt. assumption. }
    unfold page_canvas in Hok. fold capacity c in Hok.
    apply combine_images_to_page_ok in Hok as (font & opss & _ & Hp & ->); try lia.
    destruct (placed_from_split _ _ _ _ _ _ _ _ _ _ Hp (j mod c)%nat path)
      as (ops & before & after & Hpl & E & Hlen).
    { apply chunk_lookup; assumption. }
    exists (page_of (draws (new_white (2229, 3254)) (concat opss))), font, ops,
      before, after.
    split; [rewrite list_lookup_fmap, Ecv; reflexivity|].
    rewrite Z.add_0_l in Hpl. split; [exact Hpl|].
    split.
    + destruct (placed_texts _ _ _ _ _ _ _ _ _ _ Hpl) as (-> & _).
      do 2 f_equal. nia.
    + split; [|exact Hlen]. cbn. exact E.
Qed.

(** C2. The f-string of the source writes a number as the spec words the
    ordinal, the decimal digits between parentheses: [(1)], [(2)], ...,
    and distinct numbers give distinct texts.  In every document the driver
    leaves in place of what was there before, whatever that was, and in the
    document of every run in which nothing fails, started from any state,
    the labels read in page order are "(1)", "(2)", ..., "(N)" for the N
    images, with no gap and no repeat: the image at overall position [j]
    (from 0) is stamped, as the [j mod capacity]-th image of page
    [j / capacity], with the text "(j+1)"; page [k] starts at
    "(k * capacity + 1)" and numbers the images it received from there,
    however many they are. *)
Theorem ordinals_contiguous env image_list rows cols :
  1 <= rows -> 1 <= cols ->
  let capacity := rows * cols in
  let c := Z.to_nat capacity in
  let pages := Z.to_nat (ceil_div (len image_list) capacity) in
  let numbered := fun pdf : list PdfPage =>
    concat (labels ∘ page_content <$> pdf)
    = (fun j : nat => ordinal_text (Z.of_nat j + 1)) <$> seq 0 (length image_list) /\
    (forall k page, pdf !! k = Some page ->
       labels (page_content page)
       = (fun i : nat => ordinal_text (Z.of_nat k * capacity + Z.of_nat i + 1))
           <$> seq 0 (length (chunk c image_list k)) /\
       head (labels (page_content page))
       = Some (ordinal_text (Z.of_nat k * capacity + 1))) /\
    (forall j path, image_list !! j = Some path ->
       exists page font ops before after,
         pdf !! (j / c)%nat = Some page /\
         placed env rows cols (Z.of_nat (j / c) * capacity) default_padding font
           (2229 / cols, 3254 / rows) (Z.of_nat (j mod c)) path ops /\
         omap text_of ops = [ordinal_text (Z.of_nat j + 1)] /\
         drawn (page_content page) = before ++ ops ++ after /\
         length before = (3 * (j mod c))%nat) in
  (forall n, 0 <= n -> label n = ordinal_text n) /\
  (forall n, 0 <= n ->
     decimal n = (if n <? 10 then "" else decimal (n / 10))
                   +:+ String (digit (n mod 10)) "") /\
  (forall a b, 0 <= a -> 0 <= b -> ordinal_text a = ordinal_text b -> a = b) /\
  (forall fs r fs' pdf,
     create_pdf_from_images env image_list rows cols fs = (r, fs') ->
     output_pdf fs' = Some pdf -> output_pdf fs <> Some pdf ->
     numbered pdf) /\
  (forall fs (cv : nat -> Canvas),
     mkdir_error env = None -> output_error env = None ->
     (forall k, (k < pages)%nat ->
        page_canvas env image_list rows cols k = Ok (cv k) /\
        save_error env (page_name k) = None) ->
     exists r fs' pdf,
       create_pdf_from_images env image_list rows cols fs = (r, fs') /\
       output_pdf fs' = Some pdf /\ numbered pdf).
Proof.
  intros Hr Hc capacity c pages numbered.
  assert (Hcap : 0 < capacity) by (unfold capacity; nia).
  assert (Hnum : forall cs,
            Forall2 (fun k c => page_canvas env image_list rows cols k = Ok c)
              (seq 0 pages) cs -> numbered (page_of <$> cs)).
  { intros cs Hcs.
    destruct (canvases_numbered env image_list rows cols cs Hr Hc Hcs)
      as (H1 & H2 & H3).
    fold capacity c in H1, H2, H3. unfold numbered. split; [|split].
    - rewrite H1. apply list_fmap_ext. intros _ j _.
      apply label_ordinal_text. lia.
    - intros k page Hk. destruct (H2 k page Hk) as [E1 E2]. split.
      + rewrite E1. apply list_fmap_ext. intros _ i _.
        apply label_ordinal_text. nia.
      + rewrite E2, label_ordinal_text by nia. reflexivity.
    - intros j path Hj.
      destruct (H3 j path Hj) as (page & font & ops & before & after & E1 & E2 & E3 & E4).
      exists page, font, ops, before, after.
      rewrite <- label_ordinal_text by lia. auto. }
  split; [exact label_ordinal_text|]. split; [|split; [exact ordinal_text_inj|split]].
  - intros n Hn. rewrite (decimal_pretty n Hn).
    rewrite (decimal_pretty (n / 10)) by (apply Z.div_pos; lia).
    apply pretty_Z_step. exact Hn.
  - intros fs r fs' pdf Hrun Hpdf Hnew.
    destruct (rewritten_document _ _ _ _ _ _ _ _ Hcap Hrun Hpdf Hnew) as (cs & Hcs & ->).
    apply Hnum. exact Hcs.
  - intros fs cv Hmk Hout Hgood.
    destruct (document_written env image_list rows cols fs cv Hcap Hmk Hout Hgood)
      as (r & fs' & Hrun & Hpdf).
    exists r, fs', (page_of <$> (cv <$> seq 0 pages)).
    split; [exact Hrun|]. split.
    + rewrite Hpdf. fold capacity pages. rewrite list_fmap_compose. reflexivity.
    + apply Hnum. apply Forall2_fmap_r, Forall_Forall2_diag, Forall_forall.
      intros k Hk. apply elem_of_seq in Hk. apply Hgood. lia.
Qed.

(** An instance: the document of the scenario, written over an older
    document, carries the ordinals 1 to 7. *)
Lemma ordinals_contiguous_witness :
  exists r fs' pdf,
    create_pdf_from_images demo_env seven_images 2 2
      {| temp_dir := None; output_pdf := Some [] |} = (r, fs') /\
    output_pdf fs' = Some pdf /\
    concat (labels ∘ page_content <$> pdf)
    = ["(1)"; "(2)"; "(3)"; "(4)"; "(5)"; "(6)"; "(7)"].
Proof.
  destruct (proj2 (proj2 (proj2 (proj2
              (ordinals_contiguous demo_env seven_images 2 2 ltac:(lia) ltac:(lia)))))
              {| temp_dir := None; output_pdf := Some [] |}
              (demo_canvas seven_images 2 2) eq_refl eq_refl)
    as (r & fs' & pdf & Hrun & Hpdf & Hnum & _).
  - intros k Hk. assert (k = 0 \/ k = 1)%nat as [-> | ->] by (vm_compute in Hk; lia);
      split; vm_compute; reflexivity.
  - exists r, fs', pdf. split; [exact Hrun|]. split; [exact Hpdf|].
    rewrite Hnum. reflexivity.
Defined.

Lemma pastes_draws c ops : pastes (draws c ops) = pastes c ++ omap paste_of ops.
Proof. unfold pastes, draws. cbn. apply omap_app. Qed.

Lemma labels_draws c ops : labels (draws c ops) = labels c ++ omap text_of ops.
Proof. unfold labels, draws. cbn. apply omap_app. Qed.

Lemma stamp_pastes env font img_max img new_size cell ps bp number :
  omap paste_of (stamp env font img_max img new_size cell ps bp number)
  = [(img, (cell.2 * img_max.1 + (img_max.1 - new_size.1) / 2,
            cell.1 * img_max.2 + (img_max.2 - new_size.2) / 2))].
Proof.
  unfold stamp. destruct (textbbox _ _ _ _) as [[[b0 b1] b2] b3]. reflexivity.
Qed.

(** C3. On every page the image with local index [i] below the capacity
    goes to row [i div cols] and column [i mod cols], which lie inside the
    grid; it is pasted at the cell's top-left corner
    [(col * img_max_width, row * img_max_height)] plus the centring margin.
    On a 4 x 3 grid index 4 is in row 1, column 1, index 11 in row 3,
    column 2 and index 0 in row 0, column 0. *)
Theorem row_major_cells rows cols i :
  1 <= rows -> 1 <= cols -> 0 <= i < rows * cols ->
  grid_cell rows cols i = Ok (i / cols, i mod cols) /\
  0 <= i / cols < rows /\ 0 <= i mod cols < cols /\
  (forall env start padding font img_max_width img_max_height page path page',
     place_image env rows cols start padding font
       (img_max_width, img_max_height) page i path = Ok page' ->
     exists source img new_width new_height,
       image_open env path = Ok source /\
       fit img_max_width img_max_height (size source).1 (size source).2
       = Ok (new_width, new_height) /\
       pastes page'
       = pastes page
         ++ [(img, ((i mod cols) * img_max_width + (img_max_width - new_width) / 2,
                    (i / cols) * img_max_height + (img_max_height - new_height) / 2))]) /\
  grid_cell 4 3 4 = Ok (1, 1) /\
  grid_cell 4 3 11 = Ok (3, 2) /\
  grid_cell 4 3 0 = Ok (0, 0).
Proof.
  intros Hr Hc Hi.
  assert (Hg : grid_cell rows cols i = Ok (i / cols, i mod cols)).
  { rewrite grid_cell_eq by nia. rewrite Z.mod_small by lia. reflexivity. }
  split; [exact Hg|]. split.
  { split; [apply Z.div_pos; lia|]. apply Z.div_lt_upper_bound; lia. }
  split; [apply Z.mod_pos_bound; lia|].
  split; [|repeat split; reflexivity].
  intros env start padding font cmw cmh page path page' H.
  apply place_image_placed in H as (ops & [src img [nw nh] cell ps bp Ho Hf _ Hcell _ _ ->] & ->).
  rewrite Hg in Hcell. injection Hcell as <-.
  exists src, img, nw, nh. split; [assumption|]. split; [assumption|].
  rewrite pastes_draws, stamp_pastes. reflexivity.
Qed.

(** An instance: index 7 on the default 4 x 3 grid. *)
Lemma row_major_cells_witness :
  1 <= 4 /\ 1 <= 3 /\ 0 <= 7 < 4 * 3 /\ grid_cell 4 3 7 = Ok (2, 1).
Proof.
  split; [lia|]. split; [lia|]. split; [lia|].
  exact (proj1 (row_major_cells 4 3 7 ltac:(lia) ltac:(lia) ltac:(lia))).
Defined.

(** C4, as stated: one floor of the exact product.  The composer's page
    is one pixel narrower and three pixels lower than that. *)
Lemma single_floor_refuted :
  page_size_px <> Ok (single_floor_px 59528, single_floor_px 84189).
Proof. vm_compute. discriminate. Qed.

(** The same single floor taken in binary64 gives the same 2230 x 3257. *)
Lemma single_floor_binary64 :
  int_ (SFmul prec emax content_width SCALE_FACTOR) = Ok (single_floor_px 59528) /\
  int_ (SFmul prec emax content_height SCALE_FACTOR) = Ok (single_floor_px 84189).
Proof. split; vm_compute; reflexivity. Qed.

(** C4, amended.  The page size in points is floored to whole points before
    it is scaled by the density and floored again: 2229 x 3254 pixels.  A
    cell is the page width integer-divided by the columns and the page height
    integer-divided by the rows; the pixels of the remainder are left over
    and nothing is raised. *)
Theorem page_and_cell_geometry rows cols :
  1 <= rows -> 1 <= cols ->
  page_size_px = Ok (double_floor_px 59528, double_floor_px 84189) /\
  page_size_px = Ok (2229, 3254) /\
  img_max_size (2229, 3254) rows cols = Ok (2229 / cols, 3254 / rows) /\
  0 <= 2229 - cols * (2229 / cols) < cols /\
  0 <= 3254 - rows * (3254 / rows) < rows.
Proof.
  intros Hr Hc. split; [vm_compute; reflexivity|]. split; [apply page_size_px_eq|].
  split.
  - unfold img_max_size, floordiv. cbn [fst snd].
    destruct (Z.eqb_spec cols 0); [lia|]. destruct (Z.eqb_spec rows 0); [lia|].
    reflexivity.
  - pose proof (Z.div_mod 2229 cols ltac:(lia)).
    pose proof (Z.mod_pos_bound 2229 cols ltac:(lia)).
    pose proof (Z.div_mod 3254 rows ltac:(lia)).
    pose proof (Z.mod_pos_bound 3254 rows ltac:(lia)). lia.
Qed.

(** An instance: the cells of the default 4 x 3 grid are 743 x 813. *)
Lemma page_and_cell_geometry_witness :
  1 <= 4 /\ 1 <= 3 /\ img_max_size (2229, 3254) 4 3 = Ok (743, 813).
Proof.
  split; [lia|]. split; [lia|].
  exact (proj1 (proj2 (proj2 (page_and_cell_geometry 4 3 ltac:(lia) ltac:(lia))))).
Defined.



(** C6, at a 1 x 1000 image on the default 4 x 3 grid, whose cells are
    743 x 813: the target width is 0.  A square 49 x 49 image in a one-pixel
    wide cell (one row of 2229 columns) gets 0 x 0, since
    [49 * (1 / 49)] is just below 1 in binary64.  In the installation
    [demo_env] the page with the thin image is then refused by the resize. *)
Theorem thin_image_zero_width :
  img_max_size (2229, 3254) 4 3 = Ok (743, 813) /\
  fit 743 813 1 1000 = Ok (0, 813) /\
  img_max_size (2229, 3254) 1 2229 = Ok (1, 3254) /\
  fit 1 3254 49 49 = Ok (0, 0) /\
  combine_images_to_page demo_env ["thin.png"] 4 3 0 default_padding default_font_size
  = Raise (ValueError "height and width must be > 0").
Proof. repeat split; vm_compute; reflexivity. Qed.

Lemma first_font_fails env px : forall candidates,
  (forall name, name ∈ candidates -> is_ok (truetype env name px) = false) ->
  first_font env candidates px = Ok None \/
  exists e, first_font env candidates px = Raise e.
Proof.
  induction candidates as [|c cs IH]; intros H; cbn [first_font]; [left; reflexivity|].
  specialize (H c ltac:(left)) as Hc.
  destruct (truetype env c px) as [f|e]; [discriminate|].
  destruct (is_IOError e); [|right; eauto].
  apply IH. intros; apply H; right; assumption.
Qed.

(** C7. The candidates are tried in the order of the list at the size
    [int(font_size * SCALE_FACTOR)] (41 pixels for the default 10 points):
    the first one that loads is the font of [load_font] and of every label
    of the page; a font that [load_font] returns is always one of the
    candidates; when every candidate is refused with an [IOError],
    [load_font] and the composer raise [ValueError("No font found.")]
    whatever the images are, so no image is opened; and when no candidate
    loads for whatever reason, the composer raises, again whatever the
    images are. *)
Theorem font_resolution env font_size font_size_px :
  mul_int_float font_size SCALE_FACTOR ≫= int_ = Ok font_size_px ->
  (font_size = default_font_size -> font_size_px = 41) /\
  (forall before name after font,
     font_candidates = before ++ name :: after ->
     Forall (font_missing env font_size_px) before ->
     truetype env name font_size_px = Ok font ->
     load_font env font_size = Ok font /\
     forall paths rows cols start padding c,
       rows <> 0 -> cols <> 0 ->
       combine_images_to_page env paths rows cols start padding font_size = Ok c ->
       label_fonts c = replicate (length paths) font) /\
  (forall font,
     load_font env font_size = Ok font ->
     exists name, name ∈ font_candidates /\ truetype env name font_size_px = Ok font) /\
  (Forall (font_missing env font_size_px) font_candidates ->
   load_font env font_size = Raise (ValueError "No font found.") /\
   forall paths rows cols start padding,
     rows <> 0 -> cols <> 0 ->
     combine_images_to_page env paths rows cols start padding font_size
     = Raise (ValueError "No font found.")) /\
  ((forall name, name ∈ font_candidates ->
      is_ok (truetype env name font_size_px) = false) ->
   exists e,
     load_font env font_size = Raise e /\
     forall paths rows cols start padding,
       rows <> 0 -> cols <> 0 ->
       combine_images_to_page env paths rows cols start padding font_size
       = Raise e).
Proof.
  intros Hpx.
  assert (Eload : load_font env font_size
                  = (font ← first_font env font_candidates font_size_px;
                     match font with
                     | None => Raise (ValueError "No font found.")
                     | Some font => Ok font
                     end)).
  { unfold load_font. rewrite Hpx. reflexivity. }
  split; [|split; [|split; [|split]]].
  - intros ->. rewrite default_font_size_px_eq in Hpx. congruence.
  - intros before name after font Hsplit Hbefore Hname.
    assert (Hfont : load_font env font_size = Ok font).
    { rewrite Eload.
      assert (first_font env font_candidates font_size_px = Ok (Some font)) as ->
          by (apply first_font_found; eauto 6).
      reflexivity. }
    split; [exact Hfont|].
    intros paths rows cols start padding c Hr Hc H.
    apply combine_images_to_page_ok in H as (font' & opss & Hf' & Hp & ->);
      try assumption.
    rewrite Hfont in Hf'. injection Hf' as <-.
    unfold label_fonts, draws, new_white. cbn [drawn app].
    apply (placed_from_fonts _ _ _ _ _ _ _ _ _ _ Hp).
  - intros font H. rewrite Eload in H.
    destruct (first_font env font_candidates font_size_px) as [[f|]|] eqn:E;
      try discriminate.
    cbn in H. injection H as ->.
    apply first_font_found in E as (before & name & after & Hs & _ & Hn).
    exists name. split; [|exact Hn]. rewrite Hs. apply elem_of_app. right. left.
  - intros Hnone.
    assert (Hfont : load_font env font_size = Raise (ValueError "No font found.")).
    { rewrite Eload, (first_font_none _ _ _ Hnone). reflexivity. }
    split; [exact Hfont|].
    intros paths rows cols start padding Hr Hc.
    rewrite combine_images_to_page_eq, Hfont by assumption. reflexivity.
  - intros Hfail.
    assert (Hfont : exists e, load_font env font_size = Raise e).
    { rewrite Eload.
      destruct (first_font_fails _ _ _ Hfail) as [->|(e & ->)]; eauto. }
    destruct Hfont as (e & Hfont). exists e. split; [exact Hfont|].
    intros paths rows cols start padding Hr Hc.
    rewrite combine_images_to_page_eq, Hfont by assumption. reflexivity.
Qed.

(** Two instances: an installation with the last candidate only, and one
    with none. *)
Lemma font_resolution_witness :
  mul_int_float default_font_size SCALE_FACTOR ≫= int_ = Ok 41 /\
  load_font demo_env default_font_size
  = Ok {| face := "DejaVuSans.ttf"; size_px := 41 |} /\
  load_font demo_env_no_font default_font_size = Raise (ValueError "No font found.").
Proof.
  split; [vm_compute; reflexivity|].
  pose proof (font_resolution demo_env default_font_size 41
                ltac:(vm_compute; reflexivity)) as (_ & Hfirst & _).
  pose proof (font_resolution demo_env_no_font default_font_size 41
                ltac:(vm_compute; reflexivity)) as (_ & _ & _ & Hnone).
  split.
  - apply (Hfirst ["Helvetica.ttf"; "Arial.ttf"; "arial.ttf"; "TImes New Roman.ttf"]
             "DejaVuSans.ttf" []); [reflexivity| |reflexivity].
    repeat constructor; eexists; split; reflexivity.
  - apply Hnone. repeat constructor; eexists; split; reflexivity.
Defined.

Lemma placed_from_paste_lookup env rows cols start padding font img_max i paths opss :
  placed_from env rows cols start padding font img_max i paths opss ->
  forall (j : nat) path, paths !! j = Some path ->
  exists source img new_size cell,
    image_open env path = Ok source /\
    fit img_max.1 img_max.2 (size source).1 (size source).2 = Ok new_size /\
    grid_cell rows cols (i + Z.of_nat j) = Ok cell /\
    omap paste_of (concat opss) !! j
    = Some (img, (cell.2 * img_max.1 + (img_max.1 - new_size.1) / 2,
                  cell.1 * img_max.2 + (img_max.2 - new_size.2) / 2)).
Proof.
  induction 1 as [|i path0 paths ops opss H0 H IH]; intros j path Hj.
  - discriminate.
  - cbn [concat]. rewrite omap_app. destruct j as [|j].
    + injection Hj as <-.
      destruct H0 as [src img ns cell ps bp Ho Hf _ Hcell _ _ ->].
      exists src, img, ns, cell. rewrite Z.add_0_r, stamp_pastes. auto.
    + destruct (IH j path Hj) as (src & img & ns & cell & Ho & Hf & Hcell & Hl).
      exists src, img, ns, cell.
      replace (i + Z.of_nat (S j)) with (i + 1 + Z.of_nat j) by lia.
      repeat split; try assumption.
      destruct H0 as [src0 img0 ns0 cell0 ps bp _ _ _ _ _ _ ->].
      rewrite stamp_pastes. exact Hl.
Qed.

Lemma placed_reindex env rows cols start padding font img_max i path ops i' start' :
  rows * cols <> 0 ->
  placed env rows cols start padding font img_max i path ops ->
  exists ops', placed env rows cols start' padding font img_max i' path ops'.
Proof.
  intros Hcap [src img ns cell ps bp Ho Hf Hres _ Hps Hbp _].
  eexists. eapply (Placed _ _ _ _ _ _ _ _ _ _ src img ns _ ps bp); eauto.
  apply grid_cell_eq. assumption.
Qed.

Lemma placed_from_build env rows cols start padding font img_max paths :
  rows * cols <> 0 ->
  (forall path, path ∈ paths ->
     exists i ops, placed env rows cols start padding font img_max i path ops) ->
  forall i, exists opss,
    placed_from env rows cols start padding font img_max i paths opss.
Proof.
  intros Hcap. induction paths as [|path paths IH]; intros Hall i.
  - exists []. constructor.
  - destruct (Hall path ltac:(left)) as (i0 & ops0 & H0).
    destruct (placed_reindex _ _ _ _ _ _ _ _ _ _ i start Hcap H0) as (ops & Hops).
    destruct (IH ltac:(intros; apply Hall; right; assumption) (i + 1)) as (opss & Hopss).
    exists (ops :: opss). constructor; assumption.
Qed.

(** C8, as stated.  On a grid with a single cell the second image of a
    slice of two is not ignored: the page differs from the page of the first
    image alone. *)
Lemma overflow_not_ignored :
  combine_images_to_page demo_env ["a.png"; "b.png"] 1 1 0
    default_padding default_font_size
  <> combine_images_to_page demo_env (take 1 ["a.png"; "b.png"]) 1 1 0
       default_padding default_font_size.
Proof. vm_compute. discriminate. Qed.

(** C8, amended.  Whatever the length of the slice, every image of it is
    drawn: the image with local index [i] is pasted, after the images before
    it and over what they left there, in the cell with index
    [i mod capacity], and it is labelled [start + i + 1]; the page has as
    many pastes and labels as the slice has images.  The length of the slice
    raises nothing: a slice whose images each compose alone composes. *)
Theorem overflow_wraps env paths rows cols start padding font_size :
  1 <= rows -> 1 <= cols ->
  let capacity := rows * cols in
  (forall c,
     combine_images_to_page env paths rows cols start padding font_size = Ok c ->
     length (pastes c) = length paths /\
     labels c = (fun i : nat => label (start + Z.of_nat i + 1)) <$> seq 0 (length paths) /\
     forall (i : nat) path, paths !! i = Some path ->
       exists source img new_width new_height,
         image_open env path = Ok source /\
         fit (2229 / cols) (3254 / rows) (size source).1 (size source).2
         = Ok (new_width, new_height) /\
         let cell_index := Z.of_nat i mod capacity in
         pastes c !! i
         = Some (img, ((cell_index mod cols) * (2229 / cols)
                         + (2229 / cols - new_width) / 2,
                       (cell_index / cols) * (3254 / rows)
                         + (3254 / rows - new_height) / 2))) /\
  (paths <> [] ->
   (forall path, path ∈ paths ->
      is_ok (combine_images_to_page env [path] rows cols start padding font_size)
      = true) ->
   is_ok (combine_images_to_page env paths rows cols start padding font_size) = true).
Proof.
  intros Hr Hc capacity.
  assert (Hcap : rows * cols <> 0) by nia.
  split.
  - intros c H. pose proof H as Hlab.
    apply combine_images_to_page_labels in Hlab; [|lia|lia].
    apply combine_images_to_page_ok in H as (font & opss & _ & Hp & ->); try lia.
    split; [|split; [exact Hlab|]].
    + rewrite pastes_draws. cbn. apply (placed_from_pastes _ _ _ _ _ _ _ _ _ _ Hp).
    + intros i path Hi.
      destruct (placed_from_paste_lookup _ _ _ _ _ _ _ _ _ _ Hp i path Hi)
        as (src & img & [nw nh] & cell & Ho & Hf & Hcell & Hl).
      rewrite Z.add_0_l, grid_cell_eq in Hcell by assumption.
      injection Hcell as <-. cbn [fst snd] in *.
      exists src, img, nw, nh. split; [exact Ho|]. split; [exact Hf|].
      cbn zeta. rewrite pastes_draws. cbn [pastes new_white drawn omap app].
      exact Hl.
  - intros Hne Hall.
    destruct paths as [|p0 rest]; [congruence|].
    destruct (combine_images_to_page env [p0] rows cols start padding font_size)
      as [c0|] eqn:E0; [|specialize (Hall p0 ltac:(left)); rewrite E0 in Hall; discriminate].
    apply combine_images_to_page_ok in E0 as (font & _ & Hfont & _ & _); try lia.
    destruct (placed_from_build env rows cols start padding font
                (2229 / cols, 3254 / rows) (p0 :: rest) Hcap) with (i := 0)
      as (opss & Hopss).
    { intros path Hin. specialize (Hall path Hin).
      destruct (combine_images_to_page env [path] rows cols start padding font_size)
        as [c1|] eqn:E1; [|discriminate].
      apply combine_images_to_page_ok in E1 as (font' & opss1 & Hfont' & Hp1 & _);
        try lia.
      rewrite Hfont in Hfont'. injection Hfont' as <-.
      inversion Hp1; subst. eauto. }
    assert (E : combine_images_to_page env (p0 :: rest) rows cols start padding font_size
                = Ok (draws (new_white (2229, 3254)) (concat opss))).
    { apply combine_images_to_page_ok; try lia. eauto. }
    rewrite E. reflexivity.
Qed.

(** An instance: two images on a grid with a single cell. *)
Lemma overflow_wraps_witness :
  1 <= 1 /\ 1 <= 1 /\
  is_ok (combine_images_to_page demo_env ["a.png"; "b.png"] 1 1 0
           default_padding default_font_size) = true /\
  forall c,
    combine_images_to_page demo_env ["a.png"; "b.png"] 1 1 0
      default_padding default_font_size = Ok c ->
    length (pastes c) = 2%nat.
Proof.
  split; [lia|]. split; [lia|]. split; [vm_compute; reflexivity|]. intros c H.
  exact (proj1 (proj1 (overflow_wraps demo_env ["a.png"; "b.png"] 1 1 0
                         default_padding default_font_size ltac:(lia) ltac:(lia))
                  c H)).
Defined.

(** C9. The cleanup of lines 218-222 is reached on the one path on which
    nothing raises, and on no other: the function has no [try]/[finally].
    The run of the scenario, seven images on a 2 x 2 grid, ends normally and
    leaves neither page files nor directory.  The same run on a disk that
    refuses the document ends with the exception of [pdf.output] and leaves
    the directory with [page_1.png] and [page_2.png]; with five images of
    which the fifth is missing, the run ends while composing the second page
    and leaves the directory with [page_1.png]. *)
Theorem cleanup_skipped_on_failure :
  demo_run.1 = Ok () /\ temp_dir demo_run.2 = None /\
  (create_pdf_from_images demo_env_no_output seven_images 2 2 fresh_fs).1
  = Raise (OSError "Permission denied") /\
  is_Some (temp_dir (create_pdf_from_images demo_env_no_output seven_images 2 2
                       fresh_fs).2 ≫= (.!! "page_1.png")) /\
  is_Some (temp_dir (create_pdf_from_images demo_env_no_output seven_images 2 2
                       fresh_fs).2 ≫= (.!! "page_2.png")) /\
  (create_pdf_from_images demo_env
     ["a.png"; "b.png"; "c.png"; "d.png"; "missing.png"] 2 2 fresh_fs).1
  = Raise (OSError "No such file or directory") /\
  is_Some (temp_dir (create_pdf_from_images demo_env
                       ["a.png"; "b.png"; "c.png"; "d.png"; "missing.png"] 2 2
                       fresh_fs).2 ≫= (.!! "page_1.png")).
Proof. repeat split; vm_compute; eauto. Qed.

(** The same for every run: once the document has been written no [*.png]
    is left in the directory, and the directory is removed when the run ends
    normally, which it always does when the directory was not there before.
    A run that ends with an exception leaves the directory behind; when it
    ended before the document was written nothing was cleaned up: every
    file that was in the directory is still there, and so is the file of
    every page that was composed and saved. *)
Lemma cleanup_only_after_output env image_list rows cols fs r fs' :
  1 <= rows -> 1 <= cols ->
  create_pdf_from_images env image_list rows cols fs = (r, fs') ->
  let pages := Z.to_nat (ceil_div (len image_list) (rows * cols)) in
  (forall pdf, output_pdf fs = None -> output_pdf fs' = Some pdf ->
     (forall files name,
        temp_dir fs' = Some files -> is_png name = true -> files !! name = None) /\
     (r = Ok () -> temp_dir fs' = None) /\
     (temp_dir fs = None -> r = Ok () /\ temp_dir fs' = None)) /\
  (forall e, r = Raise e ->
     exists files',
       temp_dir fs' = Some files' /\
       (output_pdf fs' = None ->
        (forall files name,
           temp_dir fs = Some files -> is_Some (files !! name) ->
           is_Some (files' !! name)) /\
        (forall k, (k < pages)%nat ->
           (forall j, (j <= k)%nat -> page_good env image_list rows cols j) ->
           is_Some (files' !! page_name k)))).
Proof.
  intros Hr Hc Hrun pages.
  assert (Hcap : 0 < rows * cols) by nia.
  rewrite create_pdf_from_images_eq in Hrun by assumption. fold pages in Hrun.
  destruct (mkdir env fs) as [r1 fs1] eqn:Emk.
  apply mkdir_cases in Emk as [(e1 & -> & -> & Hd0 & _)|(-> & Ho1 & Hd1)].
  { injection Hrun as <- <-. split.
    - intros pdf Hnone Hpdf. congruence.
    - intros e He. discriminate. }
  destruct (for_each _ _ _ fs1) as [rl fs2] eqn:Eloop.
  destruct (for_each_pages_frame env image_list rows cols Hcap _ _ _ _ _ _ Hd1 Eloop)
    as (files2 & Hd2 & Ho2 & Hkeep & Hsaved & Hnames).
  assert (Hold : forall files name,
             temp_dir fs = Some files -> is_Some (files !! name) ->
             is_Some (files2 !! name)).
  { intros files name Hd Hn. apply Hkeep. rewrite Hd. exact Hn. }
  assert (Hpg : forall k, (k < pages)%nat ->
             (forall j, (j <= k)%nat -> page_good env image_list rows cols j) ->
             is_Some (files2 !! page_name k)).
  { intros k Hk Hall. apply (Hsaved k k); [apply lookup_seq_lt; assumption|].
    intros q j Hq Hj. apply lookup_seq in Hj as [-> _]. apply Hall. lia. }
  destruct rl as [pdf'|el].
  2:{ injection Hrun as <- <-. split.
      - intros pdf Hnone Hpdf. congruence.
      - intros e _. exists files2. auto. }
  unfold pdf_output in Hrun. destruct (output_error env) as [eo|].
  { injection Hrun as <- <-. split.
    - intros pdf Hnone Hpdf. congruence.
    - intros e _. exists files2. auto. }
  unfold unlink_pngs in Hrun. cbn [temp_dir output_pdf] in Hrun. rewrite Hd2 in Hrun.
  unfold rmdir in Hrun. cbn [temp_dir output_pdf] in Hrun.
  set (left_over := filter (fun kv : string * File => is_png kv.1 = false) files2) in *.
  assert (Hnopng : forall name, is_png name = true -> left_over !! name = None).
  { intros name Hpng. apply map_lookup_filter_None. right.
    intros x _ Hx. cbn [fst] in Hx. congruence. }
  assert (Hfresh : temp_dir fs = None -> left_over = ∅).
  { intros Hd0. apply map_empty. intros name.
    apply map_lookup_filter_None.
    destruct (files2 !! name) as [x|] eqn:El; [|left; reflexivity].
    right. intros y _ Hx. cbn [fst] in Hx.
    destruct (Hnames name ltac:(eauto)) as [Hin|(k & ->)].
    - rewrite Hd0 in Hin. cbn in Hin. rewrite lookup_empty in Hin.
      destruct Hin; discriminate.
    - rewrite is_png_page_name in Hx. discriminate. }
  destruct (bool_decide_reflect (left_over = ∅)) as [Hempty|Hnonempty];
    injection Hrun as <- <-; cbn [temp_dir output_pdf].
  - split.
    + intros pdf _ _. repeat split; auto. discriminate.
    + intros e He. discriminate.
  - split.
    + intros pdf _ _. split; [|split].
      * intros files name [= <-]. apply Hnopng.
      * discriminate.
      * intros Hd0. destruct Hnonempty. auto.
    + intros e _. exists left_over. split; [reflexivity|]. discriminate.
Qed.

(** * Further properties of the program *)

(** ** The page composer *)

Lemma cell_of_index rows cols i :
  1 <= rows -> 1 <= cols ->
  let cell := i mod (rows * cols) in
  0 <= cell mod cols < cols /\ 0 <= cell / cols < rows.
Proof.
  intros Hr Hc cell.
  pose proof (Z.mod_pos_bound i (rows * cols) ltac:(nia)) as Hcell. fold cell in Hcell.
  split; [apply Z.mod_pos_bound; lia|].
  split; [apply Z.div_pos; lia|]. apply Z.div_lt_upper_bound; lia.
Qed.

(** X1. Every image the composer pastes lies inside its grid cell, and the
    cell inside the page: with at most 3254 rows and 2229 columns (so that a
    cell has at least one pixel) and an image of positive size below 2^52,
    the target size is at most the cell size and the pasted rectangle
    [x, x + new_width) x [y, y + new_height) is within the cell of index
    [i mod capacity], which is within the 2229 x 3254 canvas. *)
Theorem pasted_inside_cell env rows cols start padding font page i path source w h page' :
  1 <= rows <= 3254 -> 1 <= cols <= 2229 ->
  image_open env path = Ok source -> size source = (w, h) ->
  0 < w < 2 ^ 52 -> 0 < h < 2 ^ 52 ->
  place_image env rows cols start padding font (2229 / cols, 3254 / rows)
    page i path = Ok page' ->
  exists img x y new_width new_height,
    fit (2229 / cols) (3254 / rows) w h = Ok (new_width, new_height) /\
    pastes page' = pastes page ++ [(img, (x, y))] /\
    let cell := i mod (rows * cols) in
    let left := (cell mod cols) * (2229 / cols) in
    let top := (cell / cols) * (3254 / rows) in
    0 <= new_width /\ 0 <= new_height /\
    left <= x /\ x + new_width <= left + 2229 / cols /\
    top <= y /\ y + new_height <= top + 3254 / rows /\
    0 <= left /\ left + 2229 / cols <= 2229 /\
    0 <= top /\ top + 3254 / rows <= 3254.
Proof.
  intros Hr Hc Ho Hs Hw Hh H.
  assert (Hcw : 0 < 2229 / cols <= 2229).
  { split; [apply Z.div_str_pos; lia|]. apply Z.div_le_upper_bound; nia. }
  assert (Hch : 0 < 3254 / rows <= 3254).
  { split; [apply Z.div_str_pos; lia|]. apply Z.div_le_upper_bound; nia. }
  destruct (fit_within (2229 / cols) (3254 / rows) w h) as (nw & nh & Efit & Hnw & Hnh & _);
    try lia.
  apply place_image_placed in H
    as (ops & [src img ns cell ps bp Ho' Hf _ Hcell _ _ ->] & ->).
  rewrite Ho in Ho'. injection Ho' as <-. rewrite Hs in Hf. cbn [fst snd] in Hf.
  rewrite Efit in Hf. injection Hf as Hns. subst ns.
  rewrite grid_cell_eq in Hcell by nia. injection Hcell as Hc'. subst cell.
  eexists img, _, _, nw, nh. split; [exact Efit|].
  split; [rewrite pastes_draws, stamp_pastes; reflexivity|].
  cbn [fst snd]. cbn zeta.
  destruct (cell_of_index rows cols i ltac:(lia) ltac:(lia)) as [Hcol Hrow].
  set (col := (i mod (rows * cols)) mod cols) in *.
  set (row := (i mod (rows * cols)) / cols) in *.
  pose proof (Z.mul_div_le 2229 cols ltac:(lia)).
  pose proof (Z.mul_div_le 3254 rows ltac:(lia)).
  pose proof (Z.div_mod (2229 / cols - nw) 2 ltac:(lia)).
  pose proof (Z.mod_pos_bound (2229 / cols - nw) 2 ltac:(lia)).
  pose proof (Z.div_mod (3254 / rows - nh) 2 ltac:(lia)).
  pose proof (Z.mod_pos_bound (3254 / rows - nh) 2 ltac:(lia)).
  repeat split; try lia; nia.
Qed.

(** An instance: the 2000 x 1000 image as the eighth image of a page of the
    default grid. *)
Lemma pasted_inside_cell_witness :
  exists page' img x y,
    place_image demo_env 4 3 0 default_padding
      {| face := "DejaVuSans.ttf"; size_px := 41 |} (2229 / 3, 3254 / 4)
      (new_white (2229, 3254)) 7 "big.png" = Ok page' /\
    pastes page' = [(img, (x, y))] /\
    743 <= x /\ x + 743 <= 1486 /\ 1626 <= y /\ y + 371 <= 2439.
Proof.
  eexists. 
  destruct (pasted_inside_cell demo_env 4 3 0 default_padding
              {| face := "DejaVuSans.ttf"; size_px := 41 |} (new_white (2229, 3254))
              7 "big.png" {| size := (2000, 1000); pixels := [] |} 2000 1000 _
              ltac:(lia) ltac:(lia) eq_refl eq_refl ltac:(lia) ltac:(lia)
              ltac:(vm_compute; reflexivity))
    as (img & x & y & nw & nh & Hfit & Hp & H).
  exists img, x, y. split; [reflexivity|]. split; [exact Hp|].
  assert (Hnw : (nw, nh) = (743, 371)).
  { assert (Ok (nw, nh) = Ok (743, 371)) as [= ]; [|congruence].
    rewrite <- Hfit. vm_compute. reflexivity. }
  injection Hnw as -> ->. cbv zeta in H.
  change (2229 / 3) with 743 in H. change (3254 / 4) with 813 in H.
  change (7 mod (4 * 3)) with 7 in H. change (7 mod 3) with 1 in H.
  change (7 / 3) with 2 in H. lia.
Defined.

(** X2. The grid is filled row by row and two images of one page never share
    a cell: for indices [i < j] below the capacity, [i = row * cols + col]
    with the row and column of its cell inside the grid, likewise for [j],
    and the cell of [i] ends above the cell of [j] or, in the same row, to
    its left, whatever the (non-negative) cell size. *)
Theorem cells_disjoint rows cols i j :
  1 <= rows -> 1 <= cols -> 0 <= i < j -> j < rows * cols ->
  exists r1 c1 r2 c2,
    grid_cell rows cols i = Ok (r1, c1) /\ grid_cell rows cols j = Ok (r2, c2) /\
    0 <= r1 < rows /\ 0 <= c1 < cols /\ 0 <= r2 < rows /\ 0 <= c2 < cols /\
    i = r1 * cols + c1 /\ j = r2 * cols + c2 /\
    forall w h, 0 <= w -> 0 <= h ->
      r1 * h + h <= r2 * h \/ (r1 = r2 /\ c1 * w + w <= c2 * w).
Proof.
  intros Hr Hc Hi Hj.
  exists (i / cols), (i mod cols), (j / cols), (j mod cols).
  rewrite !grid_cell_eq by nia.
  rewrite (Z.mod_small i), (Z.mod_small j) by lia.
  pose proof (Z.div_mod i cols ltac:(lia)) as Ei.
  pose proof (Z.div_mod j cols ltac:(lia)) as Ej.
  pose proof (Z.mod_pos_bound i cols ltac:(lia)) as Hmi.
  pose proof (Z.mod_pos_bound j cols ltac:(lia)) as Hmj.
  assert (0 <= i / cols) by (apply Z.div_pos; lia).
  assert (0 <= j / cols) by (apply Z.div_pos; lia).
  assert (i / cols < rows) by (apply Z.div_lt_upper_bound; lia).
  assert (j / cols < rows) by (apply Z.div_lt_upper_bound; lia).
  assert (i / cols <= j / cols) by (apply Z.div_le_mono; lia).
  repeat split; try lia.
  intros w h Hw Hh. destruct (Z.eq_dec (i / cols) (j / cols)) as [E|E].
  - right. split; [assumption|]. rewrite E in Ei. nia.
  - left. nia.
Qed.

(** The fourth and the eighth image of a page of the default grid. *)
Lemma cells_disjoint_witness :
  exists r1 c1 r2 c2,
    grid_cell 4 3 3 = Ok (r1, c1) /\ grid_cell 4 3 7 = Ok (r2, c2) /\
    r1 * 813 + 813 <= r2 * 813.
Proof.
  destruct (cells_disjoint 4 3 3 7 ltac:(lia) ltac:(lia) ltac:(lia) ltac:(lia))
    as (r1 & c1 & r2 & c2 & E1 & E2 & _ & _ & _ & _ & _ & _ & H).
  exists r1, c1, r2, c2. split; [exact E1|]. split; [exact E2|].
  assert (Ok (r1, c1) = Ok (1, 0)) as [= -> ->] by (rewrite <- E1; reflexivity).
  assert (Ok (r2, c2) = Ok (2, 1)) as [= -> ->] by (rewrite <- E2; reflexivity).
  lia.
Defined.

(** X3. A grid without rows or without columns makes the composer raise
    [ZeroDivisionError] at lines 68-69, before any font is looked for and
    before any image is opened: the outcome does not depend on the
    installation nor on the paths. *)
Theorem zero_grid_raises env paths rows cols start padding font_size :
  rows = 0 \/ cols = 0 ->
  combine_images_to_page env paths rows cols start padding font_size
  = Raise ZeroDivisionError.
Proof.
  intros H. unfold combine_images_to_page. rewrite page_size_px_eq.
  cbn [mbind result_bind]. unfold img_max_size, floordiv. cbn [fst snd].
  destruct (Z.eqb_spec cols 0); [reflexivity|].
  destruct (Z.eqb_spec rows 0); [reflexivity|lia].
Qed.

Lemma zero_grid_raises_witness :
  combine_images_to_page demo_env_no_font ["missing.png"] 0 3 0
    default_padding default_font_size = Raise ZeroDivisionError.
Proof. apply zero_grid_raises. left. reflexivity. Defined.

Lemma place_images_app env rows cols start padding font img_max l1 : forall l2 page i,
  place_images env rows cols start padding font img_max page i (l1 ++ l2)
  = (page' ← place_images env rows cols start padding font img_max page i l1;
     place_images env rows cols start padding font img_max page' (i + len l1) l2).
Proof.
  induction l1 as [|p l1 IH]; intros l2 page i.
  - cbn. rewrite Z.add_0_r. reflexivity.
  - cbn [app place_images].
    destruct (place_image _ _ _ _ _ _ _ _ _ _) as [page1|e]; [|reflexivity].
    cbn [mbind result_bind]. rewrite IH.
    destruct (place_images _ _ _ _ _ _ _ _ _ l1) as [page2|e]; [|reflexivity].
    cbn [mbind result_bind]. f_equal. unfold len. cbn [length]. lia.
Qed.

(** X4. The first image that cannot be opened decides the outcome of the
    page: when the images before it compose, the composer raises the
    exception of [Image.open] for it, whatever follows it in the list. *)
Theorem first_unreadable_image env before path after rows cols start padding font_size c e :
  rows <> 0 -> cols <> 0 ->
  combine_images_to_page env before rows cols start padding font_size = Ok c ->
  image_open env path = Raise e ->
  combine_images_to_page env (before ++ path :: after) rows cols start padding font_size
  = Raise e.
Proof.
  intros Hr Hc H Ho. rewrite combine_images_to_page_eq in * by assumption.
  bind_ok H. cbn [mbind result_bind]. rewrite place_images_app, H.
  cbn [mbind result_bind place_images]. unfold place_image. rewrite Ho. reflexivity.
Qed.

Lemma first_unreadable_image_witness :
  combine_images_to_page demo_env (["a.png"; "b.png"] ++ "missing.png" :: ["c.png"])
    4 3 0 default_padding default_font_size
  = Raise (OSError "No such file or directory").
Proof.
  eapply (first_unreadable_image demo_env ["a.png"; "b.png"] "missing.png" ["c.png"]);
    [lia|lia|vm_compute; reflexivity|reflexivity].
Defined.

Lemma placed_from_concat_length env rows cols start padding font img_max i paths opss :
  placed_from env rows cols start padding font img_max i paths opss ->
  length (concat opss) = (3 * length paths)%nat.
Proof.
  induction 1 as [|i path paths ops opss H0 H IH]; [reflexivity|].
  cbn [concat length]. rewrite length_app, IH, (placed_length _ _ _ _ _ _ _ _ _ _ H0). lia.
Qed.

(** X5. What a composed page is made of: a canvas of 2229 x 3254 pixels on
    which, for each path in order, exactly three calls were made: the paste,
    then the black rectangle, then the white label.  The label of the image
    at position [j] reads [(start_index + j + 1)], is anchored
    [int(padding * SCALE_FACTOR)] pixels right of and below the corner of the
    paste, and its background is the bounding box of that text grown by 8
    pixels on each side. *)
Theorem composed_page_calls env paths rows cols start padding font_size c :
  rows <> 0 -> cols <> 0 ->
  combine_images_to_page env paths rows cols start padding font_size = Ok c ->
  canvas_size c = (2229, 3254) /\
  length (drawn c) = (3 * length paths)%nat /\
  exists font,
    load_font env font_size = Ok font /\
    forall (j : nat), (j < length paths)%nat ->
      exists img x y padding_scale b0 b1 b2 b3,
        mul_int_float padding SCALE_FACTOR ≫= int_ = Ok padding_scale /\
        textbbox env font (x + padding_scale, y + padding_scale)
          (label (start + Z.of_nat j + 1)) = (b0, b1, b2, b3) /\
        drawn c !! (3 * j)%nat = Some (Paste img (x, y)) /\
        drawn c !! (3 * j + 1)%nat
          = Some (Rectangle (b0 - 8, b1 - 8, b2 + 8, b3 + 8) black) /\
        drawn c !! (3 * j + 2)%nat
          = Some (Text (x + padding_scale, y + padding_scale)
                    (label (start + Z.of_nat j + 1)) white font).
Proof.
  intros Hr Hc H.
  apply combine_images_to_page_ok in H as (font & opss & Hf & Hp & ->); try assumption.
  split; [reflexivity|]. cbn [draws drawn new_white app].
  split; [eapply placed_from_concat_length; eassumption|].
  exists font. split; [assumption|]. intros j Hj.
  destruct (lookup_lt_is_Some_2 paths j Hj) as [path Hpath].
  destruct (placed_from_split _ _ _ _ _ _ _ _ _ _ Hp j path Hpath)
    as (ops & before & after & Hpl & -> & Hlen).
  destruct Hpl as [src img ns cell ps bp _ _ _ _ Hps Hbp ->].
  rewrite bg_padding_eq in Hbp. injection Hbp as <-.
  unfold stamp.
  set (x := cell.2 * (2229 / cols, 3254 / rows).1 + ((2229 / cols, 3254 / rows).1 - ns.1) / 2).
  set (y := cell.1 * (2229 / cols, 3254 / rows).2 + ((2229 / cols, 3254 / rows).2 - ns.2) / 2).
  replace (start + (0 + Z.of_nat j) + 1) with (start + Z.of_nat j + 1) by lia.
  destruct (textbbox env font (x + ps, y + ps) (label (start + Z.of_nat j + 1)))
    as [[[b0 b1] b2] b3] eqn:Ebb.
  exists img, x, y, ps, b0, b1, b2, b3.
  split; [assumption|]. split; [assumption|].
  repeat split.
  - rewrite lookup_app_r by lia. replace (3 * j - length before)%nat with 0%nat by lia.
    reflexivity.
  - rewrite lookup_app_r by lia. replace (3 * j + 1 - length before)%nat with 1%nat by lia.
    reflexivity.
  - rewrite lookup_app_r by lia. replace (3 * j + 2 - length before)%nat with 2%nat by lia.
    reflexivity.
Qed.

Lemma composed_page_calls_witness :
  exists c,
    combine_images_to_page demo_env ["a.png"; "big.png"] 4 3 12
      default_padding default_font_size = Ok c /\
    canvas_size c = (2229, 3254) /\ length (drawn c) = 6%nat.
Proof.
  eexists. split; [vm_compute; reflexivity|].
  destruct (composed_page_calls demo_env ["a.png"; "big.png"] 4 3 12
              default_padding default_font_size _ ltac:(lia) ltac:(lia)
              ltac:(vm_compute; reflexivity)) as (Hs & Hl & _).
  split; [exact Hs|exact Hl].
Defined.

Lemma first_font_raises env px e name after : forall before,
  Forall (font_missing env px) before ->
  truetype env name px = Raise e -> is_IOError e = false ->
  first_font env (before ++ name :: after) px = Raise e.
Proof.
  induction before as [|b before IH]; intros Hb Hn He; cbn [app first_font].
  - rewrite Hn, He. reflexivity.
  - inversion Hb as [|? ? Hmiss Hb']; subst. destruct Hmiss as (e' & Et & Eio).
    rewrite Et, Eio. apply IH; assumption.
Qed.

(** X6. Only [IOError] moves the font search on: when the candidates before
    some candidate are missing and [ImageFont.truetype] raises anything else
    for that candidate, the composer raises this exception; the candidates
    after it are not tried, installed or not, and no image is opened. *)
Theorem font_error_aborts env paths rows cols start padding font_size
    font_size_px before name after e :
  rows <> 0 -> cols <> 0 ->
  mul_int_float font_size SCALE_FACTOR ≫= int_ = Ok font_size_px ->
  font_candidates = before ++ name :: after ->
  Forall (font_missing env font_size_px) before ->
  truetype env name font_size_px = Raise e -> is_IOError e = false ->
  combine_images_to_page env paths rows cols start padding font_size = Raise e.
Proof.
  intros Hr Hc Hpx Hcand Hb Hn He.
  rewrite combine_images_to_page_eq by assumption. unfold load_font.
  rewrite Hpx. cbn [mbind result_bind]. rewrite Hcand.
  rewrite (first_font_raises env font_size_px e name after before Hb Hn He).
  reflexivity.
Qed.

(** A font size of 0: the installed DejaVu Sans, the last candidate, is
    never reached. *)
Lemma font_error_aborts_witness :
  combine_images_to_page demo_env_sized ["a.png"] 4 3 0 default_padding 0
  = Raise (ValueError "font size must be greater than 0").
Proof.
  eapply (font_error_aborts demo_env_sized ["a.png"] 4 3 0 default_padding 0 0
            [] "Helvetica.ttf");
    [lia|lia|vm_compute; reflexivity|reflexivity|constructor|reflexivity|reflexivity].
Defined.

(** ** The driver *)

Lemma mkdir_ok env fs :
  temp_dir fs <> None \/ mkdir_error env = None ->
  mkdir env fs
  = (Ok (), {| temp_dir := Some (default ∅ (temp_dir fs)); output_pdf := output_pdf fs |}).
Proof.
  unfold mkdir. intros H. destruct fs as [[files|] out]; cbn; [reflexivity|].
  destruct H as [H | ->]; [destruct H|]; reflexivity.
Qed.

Lemma for_each_app {A S} (body : A -> S -> io S) l1 : forall l2 acc fs,
  for_each (l1 ++ l2) body acc fs
  = match for_each l1 body acc fs with
    | (Ok acc', fs') => for_each l2 body acc' fs'
    | (Raise e, fs') => (Raise e, fs')
    end.
Proof.
  induction l1 as [|x l1 IH]; intros l2 acc fs; [reflexivity|].
  cbn [app for_each]. unfold mbind, io_bind.
  destruct (body x acc fs) as [[acc1|e] fs1]; [apply IH|reflexivity].
Qed.

(** The loop when nothing fails, with the files it leaves. *)
Lemma for_each_pages_saved env image_list rows cols (cv : nat -> Canvas) ks :
  0 < rows * cols ->
  forall pdf fs files,
  temp_dir fs = Some files ->
  (forall k, k ∈ ks ->
     page_canvas env image_list rows cols k = Ok (cv k) /\
     save_error env (page_name k) = None) ->
  for_each (starts (rows * cols) ks) (page_body env image_list rows cols) pdf fs
  = (Ok (pdf ++ (page_of ∘ cv <$> ks)),
     {| temp_dir := Some (saved_pages cv ks files); output_pdf := output_pdf fs |}).
Proof.
  intros Hcap. induction ks as [|k ks IH]; intros pdf fs files Hdir Hgood.
  - cbn [starts fmap list_fmap for_each]. unfold mret, io_ret.
    rewrite app_nil_r. destruct fs; cbn in *; subst; reflexivity.
  - cbn [starts fmap list_fmap for_each]. unfold mbind at 1. unfold io_bind.
    rewrite add_page_eq by assumption.
    destruct (Hgood k ltac:(left)) as [-> ->]. rewrite Hdir.
    fold (starts (rows * cols) ks).
    rewrite (IH (pdf ++ [page_of (cv k)])
               {| temp_dir := Some (<[page_name k := PngFile (cv k)]> files);
                  output_pdf := output_pdf fs |}
               (<[page_name k := PngFile (cv k)]> files) eq_refl)
      by (intros; apply Hgood; right; assumption).
    cbn [output_pdf]. rewrite <- app_assoc. reflexivity.
Qed.

Lemma page_name_inj j k : page_name j = page_name k -> j = k.
Proof.
  unfold page_name, page_file_name. intros H.
  apply (inj (String.app "page_")) in H.
  apply string_app_inj_r in H. apply (inj pretty) in H. lia.
Qed.

Lemma saved_pages_other cv ks : forall files name,
  (forall k, k ∈ ks -> name <> page_name k) ->
  saved_pages cv ks files !! name = files !! name.
Proof.
  unfold saved_pages. induction ks as [|k ks IH]; intros files name Hn; [reflexivity|].
  cbn [foldl]. rewrite IH by (intros; apply Hn; right; assumption).
  apply lookup_insert_ne. intros E. apply (Hn k); [left|congruence].
Qed.

Lemma saved_pages_lookup cv ks : forall files k,
  NoDup ks -> k ∈ ks ->
  saved_pages cv ks files !! page_name k = Some (PngFile (cv k)).
Proof.
  induction ks as [|k0 ks IH]; intros files k Hnd Hk.
  - apply elem_of_nil in Hk. destruct Hk.
  - apply NoDup_cons in Hnd as [Hnot Hnd].
    change (saved_pages cv (k0 :: ks) files)
      with (saved_pages cv ks (<[page_name k0 := PngFile (cv k0)]> files)).
    apply elem_of_cons in Hk as [->|Hk].
    + rewrite saved_pages_other; [apply lookup_insert_eq|].
      intros k Hk E. apply page_name_inj in E. congruence.
    + apply IH; assumption.
Qed.

Lemma saved_pages_names cv ks : forall files name,
  is_Some (saved_pages cv ks files !! name) ->
  is_Some (files !! name) \/ exists k, k ∈ ks /\ name = page_name k.
Proof.
  induction ks as [|k0 ks IH]; intros files name H; [left; exact H|].
  change (saved_pages cv (k0 :: ks) files)
    with (saved_pages cv ks (<[page_name k0 := PngFile (cv k0)]> files)) in H.
  apply IH in H as [H|(k & Hk & ->)].
  - destruct (decide (page_name k0 = name)) as [<-|Hne].
    + right. exists k0. split; [left|reflexivity].
    + rewrite lookup_insert_ne in H by assumption. left. exact H.
  - right. exists k. split; [right; assumption|reflexivity].
Qed.

Lemma saved_pages_filter cv ks : forall files,
  filter (fun kv : string * File => is_png kv.1 = false) (saved_pages cv ks files)
  = filter (fun kv : string * File => is_png kv.1 = false) files.
Proof.
  induction ks as [|k ks IH]; intros files; [reflexivity|].
  change (saved_pages cv (k :: ks) files)
    with (saved_pages cv ks (<[page_name k := PngFile (cv k)]> files)).
  rewrite IH. apply map_filter_insert_not. intros y. cbn [fst].
  rewrite is_png_page_name. discriminate.
Qed.

(** X7. A temporary directory that cannot be created ends the run quietly:
    the exception of [mkdir] is swallowed, the function returns normally
    and the file system is as it was; no page is composed and no document
    is written, whatever the images and the grid. *)
Theorem mkdir_failure_swallowed env image_list rows cols fs e :
  temp_dir fs = None -> mkdir_error env = Some e ->
  create_pdf_from_images env image_list rows cols fs = (Ok (), fs).
Proof.
  intros Hd He. unfold create_pdf_from_images.
  destruct (content_size_eq) as [-> ->].
  unfold mbind at 1. unfold io_bind, lift. unfold mbind at 1. unfold io_bind.
  unfold mkdir. rewrite Hd, He. reflexivity.
Qed.

Lemma mkdir_failure_swallowed_witness :
  create_pdf_from_images demo_env_no_mkdir seven_images 2 2 fresh_fs
  = (Ok (), fresh_fs).
Proof. apply (mkdir_failure_swallowed _ _ _ _ _ (OSError "Permission denied")); reflexivity. Defined.

(** X8. With a capacity [rows * cols] of zero the driver raises the
    [ValueError] of [range] at line 191, after the directory was made: the
    directory is left behind, with what it held, and the document is not
    touched.  The composer's own [ZeroDivisionError] is never reached. *)
Theorem zero_capacity_raises env image_list rows cols fs :
  rows * cols = 0 ->
  temp_dir fs <> None \/ mkdir_error env = None ->
  create_pdf_from_images env image_list rows cols fs
  = (Raise (ValueError "range() arg 3 must not be zero"),
     {| temp_dir := Some (default ∅ (temp_dir fs)); output_pdf := output_pdf fs |}).
Proof.
  intros Hcap Hmk. unfold create_pdf_from_images.
  destruct (content_size_eq) as [-> ->].
  unfold mbind at 1. unfold io_bind, lift. unfold mbind at 1. unfold io_bind.
  rewrite mkdir_ok by assumption.
  unfold mbind at 1. unfold io_bind. unfold range. rewrite Hcap. reflexivity.
Qed.

Lemma zero_capacity_raises_witness :
  create_pdf_from_images demo_env seven_images 0 3 fresh_fs
  = (Raise (ValueError "range() arg 3 must not be zero"),
     {| temp_dir := Some ∅; output_pdf := None |}).
Proof. apply (zero_capacity_raises demo_env seven_images 0 3 fresh_fs); [reflexivity|right; reflexivity]. Defined.

(** X9. When there is nothing to go through, an empty list with a capacity
    other than zero or any list with a negative capacity, the loop body
    never runs: no font is looked for and no image is opened, a document
    to which no page was added is written over whatever was there, and the
    fresh directory is removed again. *)
Theorem nothing_to_paginate env image_list rows cols fs :
  (image_list = [] /\ rows * cols <> 0) \/ rows * cols < 0 ->
  temp_dir fs = None -> mkdir_error env = None -> output_error env = None ->
  create_pdf_from_images env image_list rows cols fs
  = (Ok (), {| temp_dir := None; output_pdf := Some [] |}).
Proof.
  intros Hnone Hd Hmk Hout. unfold create_pdf_from_images.
  destruct (content_size_eq) as [-> ->].
  unfold mbind at 1. unfold io_bind, lift. unfold mbind at 1. unfold io_bind.
  rewrite mkdir_ok by (right; assumption). rewrite Hd. cbn [default].
  assert (range 0 (len image_list) (rows * cols) = Ok []) as ->.
  { unfold range, len. destruct (Z.eqb_spec (rows * cols) 0) as [E|_]; [lia|].
    destruct (Z.ltb_spec 0 (rows * cols)) as [Hpos|Hneg].
    - destruct Hnone as [[-> _]|]; [reflexivity|lia].
    - replace (Z.to_nat (0 - Z.of_nat (length image_list))) with 0%nat by lia.
      reflexivity. }
  unfold mbind at 1. unfold io_bind. cbn [for_each].
  unfold mbind at 1. unfold io_bind, mret, io_ret.
  unfold mbind at 1. unfold io_bind, pdf_output. rewrite Hout.
  unfold mbind at 1. unfold io_bind, unlink_pngs. cbn [temp_dir output_pdf].
  rewrite map_filter_empty. unfold rmdir. cbn [temp_dir output_pdf].
  rewrite bool_decide_eq_true_2 by reflexivity. reflexivity.
Qed.

(** On a grid of -2 x 2 the seven images are ignored, even without any
    font. *)
Lemma nothing_to_paginate_witness :
  create_pdf_from_images demo_env_no_font seven_images (-2) 2 fresh_fs
  = (Ok (), {| temp_dir := None; output_pdf := Some [] |}).
Proof.
  apply (nothing_to_paginate demo_env_no_font seven_images (-2) 2 fresh_fs);
    [right; lia|reflexivity|reflexivity|reflexivity].
Defined.

(** X10. The first page that fails ends the run with its exception, the one
    of the composer or the one of saving its file: the pages before it are
    in the directory, each under its name with its canvas, next to what the
    directory held; nothing is cleaned up and the document is not
    touched. *)
Theorem first_failing_page env image_list rows cols fs (cv : nat -> Canvas) k e :
  0 < rows * cols ->
  temp_dir fs <> None \/ mkdir_error env = None ->
  (k < page_count image_list rows cols)%nat ->
  (forall j, (j < k)%nat ->
     page_canvas env image_list rows cols j = Ok (cv j) /\
     save_error env (page_name j) = None) ->
  page_fails env image_list rows cols k e ->
  create_pdf_from_images env image_list rows cols fs
  = (Raise e,
     {| temp_dir := Some (saved_pages cv (seq 0 k) (default ∅ (temp_dir fs)));
        output_pdf := output_pdf fs |}).
Proof.
  intros Hcap Hmk Hk Hgood Hfail.
  rewrite create_pdf_from_images_eq by assumption. rewrite mkdir_ok by assumption.
  fold (page_count image_list rows cols).
  replace (page_count image_list rows cols)
    with (k + S (page_count image_list rows cols - S k))%nat by lia.
  rewrite seq_app. cbn [seq]. unfold starts. rewrite fmap_app.
  rewrite for_each_app. fold (starts (rows * cols) (seq 0 k)).
  rewrite (for_each_pages_saved env image_list rows cols cv (seq 0 k) Hcap []
             {| temp_dir := Some (default ∅ (temp_dir fs)); output_pdf := output_pdf fs |}
             (default ∅ (temp_dir fs)) eq_refl)
    by (intros j Hj; apply Hgood; apply elem_of_seq in Hj; lia).
  cbn [fmap list_fmap for_each output_pdf]. unfold mbind at 1. unfold io_bind.
  rewrite Nat.add_0_l. rewrite add_page_eq by assumption.
  destruct Hfail as [->|[Hok Hsave]]; [reflexivity|].
  destruct (page_canvas env image_list rows cols k); [|discriminate].
  cbn [temp_dir]. rewrite Hsave. reflexivity.
Qed.

(** The fifth of five images is missing: the first page is saved, the second
    fails. *)
Lemma first_failing_page_witness :
  create_pdf_from_images demo_env
    ["a.png"; "b.png"; "c.png"; "d.png"; "missing.png"] 2 2 fresh_fs
  = (Raise (OSError "No such file or directory"),
     {| temp_dir :=
          Some (saved_pages
                  (demo_canvas ["a.png"; "b.png"; "c.png"; "d.png"; "missing.png"] 2 2)
                  (seq 0 1) ∅);
        output_pdf := None |}).
Proof.
  apply (first_failing_page demo_env
           ["a.png"; "b.png"; "c.png"; "d.png"; "missing.png"] 2 2 fresh_fs
           (demo_canvas ["a.png"; "b.png"; "c.png"; "d.png"; "missing.png"] 2 2) 1).
  - lia.
  - right. reflexivity.
  - vm_compute. lia.
  - intros j Hj. assert (j = 0%nat) as -> by lia. split; vm_compute; reflexivity.
  - left. vm_compute. reflexivity.
Defined.

(** X11. When every page goes through and the document cannot be written,
    the run ends with the exception of [pdf.output]; the directory it made
    then holds exactly the page files, page [k] (counted from 0) under
    [page_<k+1>.png] with the canvas that was composed for it, and the
    document is not touched. *)
Theorem output_failure_keeps_pages env image_list rows cols fs (cv : nat -> Canvas) e :
  0 < rows * cols ->
  temp_dir fs = None -> mkdir_error env = None ->
  (forall k, (k < page_count image_list rows cols)%nat ->
     page_canvas env image_list rows cols k = Ok (cv k) /\
     save_error env (page_name k) = None) ->
  output_error env = Some e ->
  exists files',
    create_pdf_from_images env image_list rows cols fs
    = (Raise e, {| temp_dir := Some files'; output_pdf := output_pdf fs |}) /\
    (forall k, (k < page_count image_list rows cols)%nat ->
       files' !! page_file_name (Z.of_nat k + 1) = Some (PngFile (cv k))) /\
    (forall name, is_Some (files' !! name) ->
       exists k, (k < page_count image_list rows cols)%nat /\
                 name = page_file_name (Z.of_nat k + 1)).
Proof.
  intros Hcap Hd Hmk Hgood Hout.
  exists (saved_pages cv (seq 0 (page_count image_list rows cols)) ∅).
  split; [|split].
  - rewrite create_pdf_from_images_eq by assumption.
    rewrite mkdir_ok by (right; assumption). rewrite Hd. cbn [default].
    fold (page_count image_list rows cols).
    rewrite (for_each_pages_saved env image_list rows cols cv _ Hcap []
               {| temp_dir := Some ∅; output_pdf := output_pdf fs |} ∅ eq_refl)
      by (intros k Hk; apply Hgood; apply elem_of_seq in Hk; lia).
    unfold pdf_output. rewrite Hout. reflexivity.
  - intros k Hk. apply (saved_pages_lookup cv _ ∅ k); [apply NoDup_seq|].
    apply elem_of_seq. lia.
  - intros name Hn. apply saved_pages_names in Hn as [Hn|(k & Hk & ->)].
    + rewrite lookup_empty in Hn. destruct Hn; discriminate.
    + exists k. split; [apply elem_of_seq in Hk; lia|reflexivity].
Qed.

(** The seven images of the scenario on a disk that refuses the document:
    [page_1.png] and [page_2.png] are left. *)
Lemma output_failure_keeps_pages_witness :
  exists files',
    create_pdf_from_images demo_env_no_output seven_images 2 2 fresh_fs
    = (Raise (OSError "Permission denied"),
       {| temp_dir := Some files'; output_pdf := None |}) /\
    files' !! "page_2.png" = Some (PngFile (demo_canvas seven_images 2 2 1)).
Proof.
  destruct (output_failure_keeps_pages demo_env_no_output seven_images 2 2 fresh_fs
              (demo_canvas seven_images 2 2) (OSError "Permission denied"))
    as (files' & Hrun & Hpages & _).
  - lia.
  - reflexivity.
  - reflexivity.
  - intros k Hk. assert (k = 0 \/ k = 1)%nat as [-> | ->] by (vm_compute in Hk; lia);
      split; vm_compute; reflexivity.
  - reflexivity.
  - exists files'. split; [exact Hrun|]. apply (Hpages 1%nat). vm_compute. lia.
Defined.

(** X12. A file that is not a [*.png] in the temporary directory blocks the
    cleanup, after the fact: when every page goes through, the document is
    written, every [*.png] of the directory is deleted, those that were there
    before the run included, the other files stay, and the run ends with the
    [OSError] of [rmdir] on a directory that is not empty. *)
Theorem foreign_file_blocks_cleanup env image_list rows cols fs files
    (cv : nat -> Canvas) name f :
  0 < rows * cols ->
  temp_dir fs = Some files ->
  files !! name = Some f -> is_png name = false ->
  (forall k, (k < page_count image_list rows cols)%nat ->
     page_canvas env image_list rows cols k = Ok (cv k) /\
     save_error env (page_name k) = None) ->
  output_error env = None ->
  exists left_over,
    create_pdf_from_images env image_list rows cols fs
    = (Raise (OSError "Directory not empty"),
       {| temp_dir := Some left_over;
          output_pdf := Some (page_of ∘ cv <$> seq 0 (page_count image_list rows cols)) |}) /\
    forall n, left_over !! n = if is_png n then None else files !! n.
Proof.
  intros Hcap Hd Hname Hpng Hgood Hout.
  set (left_over := filter (fun kv : string * File => is_png kv.1 = false) files).
  assert (Hlook : forall n, left_over !! n = if is_png n then None else files !! n).
  { intros n. unfold left_over. destruct (is_png n) eqn:Ep.
    - apply map_lookup_filter_None. right. intros x _ Hx. cbn [fst] in Hx. congruence.
    - destruct (files !! n) as [x|] eqn:Ef.
      + apply map_lookup_filter_Some. split; [assumption|exact Ep].
      + apply map_lookup_filter_None. left. assumption. }
  exists left_over. split; [|exact Hlook].
  rewrite create_pdf_from_images_eq by assumption.
  rewrite mkdir_ok by (left; congruence). rewrite Hd. cbn [default].
  fold (page_count image_list rows cols).
  rewrite (for_each_pages_saved env image_list rows cols cv _ Hcap []
             {| temp_dir := Some files; output_pdf := output_pdf fs |} files eq_refl)
    by (intros k Hk; apply Hgood; apply elem_of_seq in Hk; lia).
  unfold pdf_output. rewrite Hout. unfold unlink_pngs. cbn [temp_dir output_pdf].
  rewrite saved_pages_filter. fold left_over. unfold rmdir. cbn [temp_dir output_pdf].
  rewrite bool_decide_eq_false_2; [reflexivity|].
  intros E. specialize (Hlook name). rewrite E, Hpng, Hname, lookup_empty in Hlook.
  discriminate.
Qed.

(** A directory with [notes.txt] and [old.png]: the document of the scenario
    is written, [old.png] is gone, [notes.txt] is still there. *)
Lemma foreign_file_blocks_cleanup_witness :
  exists left_over pdf,
    create_pdf_from_images demo_env seven_images 2 2 cluttered_fs
    = (Raise (OSError "Directory not empty"),
       {| temp_dir := Some left_over; output_pdf := Some pdf |}) /\
    left_over !! "old.png" = None /\ left_over !! "notes.txt" = Some OtherFile.
Proof.
  destruct (foreign_file_blocks_cleanup demo_env seven_images 2 2 cluttered_fs
              (<["notes.txt" := OtherFile]> (<["old.png" := OtherFile]> ∅))
              (demo_canvas seven_images 2 2) "notes.txt" OtherFile)
    as (left_over & Hrun & Hlook).
  - lia.
  - reflexivity.
  - vm_compute. reflexivity.
  - vm_compute. reflexivity.
  - intros k Hk. assert (k = 0 \/ k = 1)%nat as [-> | ->] by (vm_compute in Hk; lia);
      split; vm_compute; reflexivity.
  - reflexivity.
  - eexists left_over, _. split; [exact Hrun|].
    rewrite !Hlook. split; vm_compute; reflexivity.
Defined.

Lemma for_each_pages_output env image_list rows cols ks :
  0 < rows * cols ->
  forall pdf fs out r fs',
  for_each (starts (rows * cols) ks) (page_body env image_list rows cols) pdf fs
  = (r, fs') ->
  for_each (starts (rows * cols) ks) (page_body env image_list rows cols) pdf
    {| temp_dir := temp_dir fs; output_pdf := out |}
  = (r, {| temp_dir := temp_dir fs'; output_pdf := out |}).
Proof.
  intros Hcap. induction ks as [|k ks IH]; intros pdf fs out r fs' H.
  - injection H as <- <-. reflexivity.
  - destruct fs as [dir out0].
    cbn [starts fmap list_fmap for_each] in *. unfold mbind at 1 in H.
    unfold mbind at 1. unfold io_bind in *.
    rewrite add_page_eq in * by assumption. cbn [temp_dir output_pdf] in *.
    destruct (page_canvas env image_list rows cols k) as [c|e];
      [|injection H as <- <-; reflexivity].
    destruct dir as [files|]; [|injection H as <- <-; reflexivity].
    destruct (save_error env (page_name k)); [injection H as <- <-; reflexivity|].
    apply (IH _ _ out) in H. exact H.
Qed.

(** X13. Running the driver again after a run that ended normally changes
    nothing: started without the directory, on a grid of at least one row
    and one column, a run that returns leaves a state from which the same
    run returns again and leaves the same state, the document it wrote
    included. *)
Theorem rerun_idempotent env image_list rows cols fs fs' :
  1 <= rows -> 1 <= cols ->
  temp_dir fs = None ->
  create_pdf_from_images env image_list rows cols fs = (Ok (), fs') ->
  create_pdf_from_images env image_list rows cols fs' = (Ok (), fs').
Proof.
  intros Hr Hc Hd Hrun.
  assert (Hcap : 0 < rows * cols) by nia.
  rewrite create_pdf_from_images_eq in Hrun by assumption.
  unfold mkdir in Hrun. rewrite Hd in Hrun.
  destruct (mkdir_error env) as [e|] eqn:Emk.
  { injection Hrun as <-. rewrite create_pdf_from_images_eq by assumption.
    unfold mkdir. rewrite Hd, Emk. reflexivity. }
  destruct (for_each _ _ _ _) as [[pdf|e] fs2] eqn:Eloop; [|discriminate].
  destruct (for_each_pages_frame env image_list rows cols Hcap _ _
              {| temp_dir := Some ∅; output_pdf := output_pdf fs |} ∅ _ _ eq_refl Eloop)
    as (files2 & Hd2 & _).
  unfold pdf_output in Hrun. destruct (output_error env) as [e|] eqn:Eout; [discriminate|].
  unfold unlink_pngs, rmdir in Hrun. cbn [temp_dir output_pdf] in Hrun.
  rewrite Hd2 in Hrun. cbn [temp_dir output_pdf] in Hrun.
  destruct (bool_decide _) eqn:Eempty; [|discriminate]. injection Hrun as <-.
  rewrite create_pdf_from_images_eq by assumption.
  unfold mkdir. cbn [temp_dir output_pdf]. rewrite Emk.
  apply (for_each_pages_output env image_list rows cols _ Hcap _ _ (Some pdf)) in Eloop.
  cbn [temp_dir output_pdf] in Eloop. rewrite Eloop.
  unfold pdf_output. rewrite Eout. unfold unlink_pngs, rmdir.
  cbn [temp_dir output_pdf]. rewrite Hd2. cbn [temp_dir output_pdf].
  rewrite Eempty. reflexivity.
Qed.

Lemma rerun_idempotent_witness :
  create_pdf_from_images demo_env seven_images 2 2 demo_run.2 = (Ok (), demo_run.2).
Proof.
  apply (rerun_idempotent demo_env seven_images 2 2 fresh_fs demo_run.2);
    [lia|lia|reflexivity|vm_compute; reflexivity].
Defined.

(** X14. Every page of a document the driver writes is a raster of
    2229 x 3254 pixels placed at (30, 30) points in a box of 535.28 x 781.89
    points (as binary64 numbers): the box is computed from the page size
    without the flooring that led to the raster, and it has not the
    proportions of the raster. *)
Theorem page_placement env image_list rows cols fs r fs' pdf :
  1 <= rows -> 1 <= cols ->
  output_pdf fs = None ->
  create_pdf_from_images env image_list rows cols fs = (r, fs') ->
  output_pdf fs' = Some pdf ->
  (forall page, page ∈ pdf ->
     canvas_size (page_content page) = (2229, 3254) /\
     page_xy page = (30, 30) /\
     page_wh page = (int_truediv 53528 100, int_truediv 78189 100)) /\
  int_truediv 53528 100 = S754_finite false 4708372672927498 (-43) /\
  int_truediv 78189 100 = S754_finite false 6877577173134213 (-43) /\
  2229 * 6877577173134213 <> 3254 * 4708372672927498.
Proof.
  intros Hr Hc Hnone Hrun Hpdf.
  assert (Hcap : 0 < rows * cols) by nia.
  destruct (written_document _ _ _ _ _ _ _ _ Hcap Hnone Hrun Hpdf) as (cs & Hcs & ->).
  split; [|split; [reflexivity|split; [reflexivity|lia]]].
  intros page Hin. apply list_elem_of_fmap in Hin as (c & -> & Hin).
  apply list_elem_of_lookup in Hin as (k & Hk).
  destruct (Forall2_lookup_r _ _ _ _ _ Hcs Hk) as (k' & _ & Hok).
  apply combine_images_to_page_ok in Hok as (font & opss & _ & _ & ->); try lia.
  repeat split.
Qed.

Lemma page_placement_witness :
  is_Some (output_pdf demo_run.2) /\
  forall pdf page, output_pdf demo_run.2 = Some pdf -> page ∈ pdf ->
    canvas_size (page_content page) = (2229, 3254) /\ page_xy page = (30, 30).
Proof.
  split; [vm_compute; eexists; reflexivity|]. intros pdf page H Hin.
  destruct (proj1 (page_placement demo_env seven_images 2 2 fresh_fs
                     demo_run.1 demo_run.2 pdf ltac:(lia) ltac:(lia) eq_refl
                     ltac:(vm_compute; reflexivity) H) page Hin) as (H1 & H2 & _).
  split; [exact H1|exact H2].
Defined.

(** ** The search for the files *)

Lemma ltb_irrefl s : String.ltb s s = false.
Proof.
  unfold String.ltb. pose proof (String.compare_antisym s s) as H.
  destruct (String.compare s s); cbn in H; congruence.
Qed.

Lemma ltb_false_le a b : String.ltb b a = false -> String.le a b.
Proof.
  unfold String.ltb, String.le, String.leb. rewrite (String.compare_antisym a b).
  destruct (String.compare b a); cbn; intros H; (exact I || discriminate).
Qed.

Lemma ltb_true_le a b : String.ltb a b = true -> String.le a b.
Proof.
  unfold String.ltb, String.le, String.leb.
  destruct (String.compare a b); cbn; intros H; (exact I || discriminate).
Qed.

Lemma insert_by_perm {A} (key : A -> string) x l : insert_by key x l ≡ₚ x :: l.
Proof.
  induction l as [|y l IH]; cbn [insert_by]; [reflexivity|].
  destruct (String.ltb (key y) (key x)); [|reflexivity].
  rewrite IH. apply Permutation_swap.
Qed.

Lemma sorted_perm {A} (key : A -> string) l : sorted key l ≡ₚ l.
Proof.
  induction l as [|x l IH]; [reflexivity|].
  change (sorted key (x :: l)) with (insert_by key x (sorted key l)).
  rewrite insert_by_perm, IH. reflexivity.
Qed.

Lemma insert_by_sorted {A} (key : A -> string) x l :
  StronglySorted (key_le key) l -> StronglySorted (key_le key) (insert_by key x l).
Proof.
  induction 1 as [|y l Hss IH Hall]; cbn [insert_by].
  - constructor; constructor.
  - destruct (String.ltb (key y) (key x)) eqn:E.
    + constructor; [exact IH|]. rewrite insert_by_perm.
      constructor; [apply ltb_true_le; exact E|exact Hall].
    + assert (Hxy : key_le key x y) by (apply ltb_false_le; exact E).
      constructor; [constructor; assumption|].
      constructor; [exact Hxy|].
      eapply Forall_impl; [exact Hall|]. intros z Hyz. unfold key_le in *.
      etransitivity; eassumption.
Qed.

Lemma sorted_sorted {A} (key : A -> string) l : StronglySorted (key_le key) (sorted key l).
Proof.
  induction l as [|x l IH]; [constructor|].
  change (sorted key (x :: l)) with (insert_by key x (sorted key l)).
  apply insert_by_sorted. exact IH.
Qed.

Lemma insert_by_stable {A} (key : A -> string) s x l :
  filter (fun a => key a = s) (insert_by key x l) = filter (fun a => key a = s) (x :: l).
Proof.
  induction l as [|y l IH]; cbn [insert_by]; [reflexivity|].
  destruct (String.ltb (key y) (key x)) eqn:E; [|reflexivity].
  rewrite (filter_cons _ y), IH, !filter_cons.
  destruct (decide (key y = s)) as [Ey|]; destruct (decide (key x = s)) as [Ex|];
    try reflexivity.
  rewrite Ey, Ex, ltb_irrefl in E. discriminate.
Qed.

Lemma sorted_stable {A} (key : A -> string) s l :
  filter (fun a => key a = s) (sorted key l) = filter (fun a => key a = s) l.
Proof.
  induction l as [|x l IH]; [reflexivity|].
  change (sorted key (x :: l)) with (insert_by key x (sorted key l)).
  rewrite insert_by_stable, !filter_cons, IH. reflexivity.
Qed.

Lemma ends_with_inv suffix s :
  ends_with suffix s = true -> exists p, s = p +:+ suffix.
Proof.
  induction s as [|a s IH]; cbn [ends_with].
  - destruct (String.eqb_spec "" suffix) as [<-|]; [|discriminate].
    intros _. exists "". reflexivity.
  - destruct (String.eqb_spec (String a s) suffix) as [<-|_].
    + intros _. exists "". reflexivity.
    + intros H. destruct (IH H) as (p & ->). exists (String a p). reflexivity.
Qed.

Lemma rfind_dot_png s : rfind_dot (s +:+ ".png") = Some (String.length s).
Proof.
  induction s as [|a s IH]; [reflexivity|].
  change (String a s +:+ ".png") with (String a (s +:+ ".png")).
  cbn [rfind_dot String.length]. rewrite IH. reflexivity.
Qed.

Lemma substring_app s t : String.substring 0 (String.length s) (s +:+ t) = s.
Proof.
  induction s as [|a s IH]; [destruct t; reflexivity|].
  change (String a s +:+ t) with (String a (s +:+ t)).
  cbn [String.length String.substring]. rewrite IH. reflexivity.
Qed.

Lemma stem_png s : s <> "" -> stem (s +:+ ".png") = s.
Proof.
  intros Hs. unfold stem. rewrite rfind_dot_png, string_length_app.
  assert (0 < String.length s)%nat by (destruct s; [congruence|cbn; lia]).
  destruct (Nat.ltb_spec 0 (String.length s)); [|lia].
  destruct (Nat.ltb_spec (String.length s) (String.length s + String.length ".png" - 1));
    [|cbn in *; lia].
  apply substring_app.
Qed.

(** X15. [find_png_files] raises when the folder is not a directory.
    Otherwise it returns the entries matching [*.png], each joined to the
    folder and each exactly once, ordered by their stems, entries with the
    same stem in the order of the listing.  Every one of them is called
    [s.png], and for a non-empty [s] its stem, the sorting key, is [s]. *)
Theorem find_png_files_sorted ls input_dir :
  (ls input_dir = None ->
   find_png_files ls input_dir = Raise (OSError "FileNotFoundError")) /\
  (forall entries, ls input_dir = Some entries ->
   exists names,
     find_png_files ls input_dir = Ok (joinpath input_dir <$> names) /\
     names ≡ₚ filter (fun name => is_png name = true) entries /\
     StronglySorted (key_le stem) names /\
     (forall s, filter (fun name => stem name = s) names
                = filter (fun name => stem name = s)
                    (filter (fun name => is_png name = true) entries)) /\
     (forall name, name ∈ names ->
        name ∈ entries /\
        exists s, name = s +:+ ".png" /\ (s <> "" -> stem name = s))).
Proof.
  unfold find_png_files. split; [intros ->; reflexivity|].
  intros entries ->.
  exists (sorted stem (filter (fun name => is_png name = true) entries)).
  split; [reflexivity|]. split; [apply sorted_perm|].
  split; [apply sorted_sorted|]. split; [intros s; apply sorted_stable|].
  intros name Hin. rewrite sorted_perm in Hin.
  apply list_elem_of_filter in Hin as [Hpng Hin]. split; [exact Hin|].
  apply ends_with_inv in Hpng as (s & ->). exists s.
  split; [reflexivity|apply stem_png].
Qed.

(** The folder of the example. *)
Lemma find_png_files_sorted_witness :
  exists names,
    find_png_files demo_ls "clothes" = Ok (joinpath "clothes" <$> names) /\
    names ≡ₚ ["b.png"; "a-b.png"; "a.png"] /\
    StronglySorted (key_le stem) names.
Proof.
  destruct (proj2 (find_png_files_sorted demo_ls "clothes")
              ["b.png"; "a-b.png"; "notes.txt"; "a.png"] eq_refl)
    as (names & E & Hp & Hs & _).
  exists names. split; [exact E|]. split; [exact Hp|exact Hs].
Defined.

(** The stems are compared, not the names: [a.png] comes before [a-b.png],
    although the name [a-b.png] is before the name [a.png]. *)
Example find_png_files_by_stem :
  find_png_files demo_ls "clothes"
  = Ok ["clothes/a.png"; "clothes/a-b.png"; "clothes/b.png"] /\
  String.ltb "a-b.png" "a.png" = true.
Proof. split; reflexivity. Qed.

(** ** [main] *)

Lemma sorted_nil_inv {A} (key : A -> string) l : sorted key l = [] -> l = [].
Proof.
  intros H. apply Permutation_nil_r. rewrite <- H. symmetry. apply sorted_perm.
Qed.

Lemma main_eq env ls input_dir rows cols fs :
  1 <= rows -> 1 <= cols ->
  main env ls input_dir rows cols fs =
  match ls input_dir with
  | None => (Raise (OSError "FileNotFoundError"), fs)
  | Some entries =>
      match filter (fun name => is_png name = true) entries with
      | [] => (Ok (), fs)
      | pngs =>
          create_pdf_from_images env (joinpath input_dir <$> sorted stem pngs)
            rows cols fs
      end
  end.
Proof.
  intros Hr Hc. unfold main.
  destruct (Z.ltb_spec rows 1); [lia|]. destruct (Z.ltb_spec cols 1); [lia|].
  cbn [orb]. unfold mbind, io_bind, lift, find_png_files.
  destruct (ls input_dir) as [entries|]; [|reflexivity].
  destruct (filter _ entries) as [|n pngs] eqn:Ef; [reflexivity|].
  destruct (sorted stem (n :: pngs)) as [|m names] eqn:Es; [|reflexivity].
  apply sorted_nil_inv in Es. discriminate.
Qed.

(** X16. What [main] does before it hands over to the driver.  A grid with
    fewer than one row or column ends it normally with nothing done, even
    when the folder does not exist; with a valid grid a missing folder
    raises and a folder without any [*.png] ends it normally; in these three
    cases the file system is not touched, so no directory is made.
    Otherwise the driver runs on the files found, which are at least
    one. *)
Theorem main_guards env ls input_dir rows cols fs :
  (rows < 1 \/ cols < 1 -> main env ls input_dir rows cols fs = (Ok (), fs)) /\
  (1 <= rows -> 1 <= cols ->
   (ls input_dir = None ->
    main env ls input_dir rows cols fs = (Raise (OSError "FileNotFoundError"), fs)) /\
   (forall entries,
      ls input_dir = Some entries ->
      (forall name, name ∈ entries -> is_png name = false) ->
      main env ls input_dir rows cols fs = (Ok (), fs)) /\
   (forall entries name,
      ls input_dir = Some entries -> name ∈ entries -> is_png name = true ->
      exists png_files,
        find_png_files ls input_dir = Ok png_files /\ png_files <> [] /\
        main env ls input_dir rows cols fs
        = create_pdf_from_images env png_files rows cols fs)).
Proof.
  split.
  - intros H. unfold main.
    destruct (Z.ltb_spec rows 1); [reflexivity|].
    destruct (Z.ltb_spec cols 1); [reflexivity|lia].
  - intros Hr Hc. rewrite main_eq by assumption. split; [|split].
    + intros ->. reflexivity.
    + intros entries -> Hnone.
      destruct (filter _ entries) as [|n pngs] eqn:Ef; [reflexivity|].
      assert (Hn : n ∈ filter (fun name => is_png name = true) entries)
        by (rewrite Ef; left).
      apply list_elem_of_filter in Hn as [Hpng Hin].
      rewrite (Hnone n Hin) in Hpng. discriminate.
    + intros entries name Hls Hin Hpng. unfold find_png_files. rewrite Hls.
      eexists. split; [reflexivity|].
      assert (Hn : name ∈ filter (fun name => is_png name = true) entries)
        by (apply list_elem_of_filter; auto).
      destruct (filter _ entries) as [|n pngs] eqn:Ef;
        [apply elem_of_nil in Hn; destruct Hn|].
      split; [|reflexivity].
      intros E. apply fmap_nil_inv in E. apply sorted_nil_inv in E. discriminate.
Qed.

(** A grid without rows on a folder that does not exist. *)
Lemma main_guards_witness :
  main demo_env demo_ls "elsewhere" 0 3 fresh_fs = (Ok (), fresh_fs) /\
  main demo_env demo_ls "elsewhere" 4 3 fresh_fs
  = (Raise (OSError "FileNotFoundError"), fresh_fs).
Proof.
  split.
  - apply (proj1 (main_guards demo_env demo_ls "elsewhere" 0 3 fresh_fs)). left. lia.
  - apply (proj2 (main_guards demo_env demo_ls "elsewhere" 4 3 fresh_fs));
      [lia|lia|reflexivity].
Defined.

(** In a document the driver wrote, the image at position [j] of the list
    is stamped on page [j / capacity] as its [j mod capacity]-th image. *)
Lemma written_stamp env image_list rows cols fs r fs' pdf :
  1 <= rows -> 1 <= cols ->
  output_pdf fs = None ->
  create_pdf_from_images env image_list rows cols fs = (r, fs') ->
  output_pdf fs' = Some pdf ->
  let c := Z.to_nat (rows * cols) in
  forall j path, image_list !! j = Some path ->
    exists page font ops before after,
      pdf !! (j / c)%nat = Some page /\
      placed env rows cols (Z.of_nat (j / c) * (rows * cols)) default_padding font
        (2229 / cols, 3254 / rows) (Z.of_nat (j mod c)) path ops /\
      omap text_of ops = [label (Z.of_nat j + 1)] /\
      drawn (page_content page) = before ++ ops ++ after /\
      length before = (3 * (j mod c))%nat.
Proof.
  intros Hr Hc Hnone Hrun Hpdf c j path Hj.
  assert (Hcap : 0 < rows * cols) by nia.
  assert (Hcc : Z.of_nat c = rows * cols) by (unfold c; lia).
  destruct (written_document _ _ _ _ _ _ _ _ Hcap Hnone Hrun Hpdf) as (cs & Hcs & ->).
  set (pages := Z.to_nat (ceil_div (len image_list) (rows * cols))) in *.
  pose proof (ceil_div_spec (len image_list) (rows * cols) Hcap) as Hceil.
  assert (Hjlt : (j < length image_list)%nat) by (apply lookup_lt_Some in Hj; lia).
  assert (Hc0 : (0 < c)%nat) by lia.
  pose proof (Nat.div_mod_eq j c) as Hdm.
  pose proof (Nat.mod_upper_bound j c ltac:(lia)) as Hmod.
  assert (Hk : (j / c < pages)%nat) by (unfold pages, len in *; nia).
  destruct (Forall2_lookup_l _ _ _ (j / c)%nat (j / c)%nat Hcs) as (cv & Ecv & Hok).
  { apply lookup_seq_lt. assumption. }
  unfold page_canvas in Hok. fold c in Hok.
  apply combine_images_to_page_ok in Hok as (font & opss & _ & Hp & ->); try lia.
  destruct (placed_from_split _ _ _ _ _ _ _ _ _ _ Hp (j mod c)%nat path)
    as (ops & before & after & Hpl & E & Hlen).
  { apply chunk_lookup; assumption. }
  exists (page_of (draws (new_white (2229, 3254)) (concat opss))), font, ops,
    before, after.
  split; [rewrite list_lookup_fmap, Ecv; reflexivity|].
  rewrite Z.add_0_l in Hpl. split; [exact Hpl|].
  split.
  - destruct (placed_texts _ _ _ _ _ _ _ _ _ _ Hpl) as (-> & _).
    do 2 f_equal. nia.
  - split; [|exact Hlen]. cbn. exact E.
Qed.

(** X17. The files are numbered in the order of their stems: when [main]
    writes a document, the grid has at least one row and one column, the
    folder exists and holds a [*.png], and the [j]-th (from 0) of its
    [*.png] entries in the order of [sorted] by stem is the file stamped
    with the text of [j + 1], as the [j mod capacity]-th image of page
    [j / capacity]. *)
Theorem main_numbers_by_stem env ls input_dir rows cols fs r fs' pdf :
  output_pdf fs = None ->
  main env ls input_dir rows cols fs = (r, fs') ->
  output_pdf fs' = Some pdf ->
  exists entries,
    ls input_dir = Some entries /\ 1 <= rows /\ 1 <= cols /\
    let names := sorted stem (filter (fun name => is_png name = true) entries) in
    let c := Z.to_nat (rows * cols) in
    names <> [] /\
    forall j name, names !! j = Some name ->
      exists page font ops before after,
        pdf !! (j / c)%nat = Some page /\
        placed env rows cols (Z.of_nat (j / c) * (rows * cols)) default_padding font
          (2229 / cols, 3254 / rows) (Z.of_nat (j mod c))
          (joinpath input_dir name) ops /\
        omap text_of ops = [label (Z.of_nat j + 1)] /\
        drawn (page_content page) = before ++ ops ++ after /\
        length before = (3 * (j mod c))%nat.
Proof.
  intros Hnone Hrun Hpdf.
  destruct (Z.ltb_spec rows 1) as [Hr|Hr].
  { unfold main in Hrun. destruct (Z.ltb_spec rows 1); [|lia].
    injection Hrun as <- <-. congruence. }
  destruct (Z.ltb_spec cols 1) as [Hc|Hc].
  { unfold main in Hrun. destruct (Z.ltb_spec cols 1); [|lia].
    rewrite orb_true_r in Hrun. injection Hrun as <- <-. congruence. }
  rewrite main_eq in Hrun by assumption.
  destruct (ls input_dir) as [entries|]; [|injection Hrun as <- <-; congruence].
  exists entries. split; [reflexivity|]. split; [assumption|]. split; [assumption|].
  destruct (filter _ entries) as [|n pngs] eqn:Ef; [injection Hrun as <- <-; congruence|].
  cbv zeta. split.
  - intros E. apply sorted_nil_inv in E. discriminate.
  - intros j name Hj.
    apply (written_stamp env _ rows cols fs r fs' pdf Hr Hc Hnone Hrun Hpdf j).
    rewrite list_lookup_fmap, Hj. reflexivity.
Qed.

(** The folder of the example on a 2 x 2 grid: [a.png] is first. *)
Lemma main_numbers_by_stem_witness :
  is_Some (output_pdf demo_main_run.2) /\
  forall pdf, output_pdf demo_main_run.2 = Some pdf ->
    exists page font ops before after,
      pdf !! 0%nat = Some page /\
      placed demo_env 2 2 0 default_padding font (2229 / 2, 3254 / 2) 0
        "clothes/a.png" ops /\
      omap text_of ops = ["(1)"] /\
      drawn (page_content page) = before ++ ops ++ after /\
      length before = 0%nat.
Proof.
  split; [vm_compute; eexists; reflexivity|]. intros pdf H.
  destruct (main_numbers_by_stem demo_env demo_ls "clothes" 2 2 fresh_fs
              demo_main_run.1 demo_main_run.2 pdf eq_refl
              ltac:(vm_compute; reflexivity) H)
    as (entries & Hls & _ & _ & _ & Hall).
  injection Hls as <-. exact (Hall 0%nat "a.png" eq_refl).
Defined.
